(** * Depth and normal passes of the post-processing pipeline

    A shallow embedding of [src/passes/NormalPass.js] and of its sibling
    [DepthPass], together with the properties of the auxiliary-buffer pass
    contract.

    Conventions of the embedding.
    - A JavaScript [Number] is an IEEE 754 binary64 value, here a primitive
      [float]: [width * scale] is the rounded binary64 product, with its
      infinities, NaN and signed zeros.  [Math.floor] and [Math.max] are
      written out on [float] as ECMAScript defines them.
    - A [WebGLRenderTarget] is a heap object: the pass holds a reference to
      it, and a caller who supplied the target holds the same reference.  The
      heap is a finite map from references to target records.
    - The pass object itself is threaded through its methods (each method
      returns the updated object).
    - A constructor or method returns a completion: a normal result or a
      thrown error.  The code the passes call but that is not part of the
      sources can fail too: the base constructor is a parameter, the
      delegate's constructor accepts or rejects a scene and camera by a
      parameter, and the delegate's draw fails on an invalid target. *)

From Stdlib Require Import ZArith QArith Floats String Lia.
From Stdlib Require Uint63.
From stdpp Require Import base option gmap.

Local Open Scope Z_scope.

(** ** JavaScript numbers and completions *)

(** The number with integer value [n], for [0 <= n < 2^53] (exact). *)
Definition Z2Number (n : Z) : float := of_uint63 (Uint63.of_Z n).

(** [Math.floor(x)]: NaN, the infinities and the zeros are returned as they
    are; so is a finite number without fractional bits (exponent [e >= 0]);
    otherwise [x] is [+-m * 2^e] with [e < 0], and the result is the greatest
    integer not above it ([+0] for [0 < x < 1]). *)
Definition Math_floor (x : float) : float :=
  match Prim2SF x with
  | S754_finite s m e =>
      if 0 <=? e then x
      else
        let q := Z.pos m / 2 ^ (- e) in
        let q' := if Z.pos m mod 2 ^ (- e) =? 0 then q else q + 1 in
        if s then PrimFloat.opp (Z2Number q') else Z2Number q
  | _ => x
  end.

(** [Math.max(a, b)]: NaN if either is NaN; otherwise the larger, [+0] being
    larger than [-0]. *)
Definition Math_max (a b : float) : float :=
  if is_nan a || is_nan b then nan
  else if (a <? b)%float then b
  else if (b <? a)%float then a
  else if is_zero a && get_sign a then b else a.

Inductive JsError : Type :=
| TypeError (msg : string)
| DrawError (msg : string).

Inductive Completion (A : Type) : Type :=
| Return (a : A)
| Throw (e : JsError).
Arguments Return {A} a.
Arguments Throw {A} e.

Global Instance Completion_ret : MRet Completion := fun A a => Return a.

Global Instance Completion_bind : MBind Completion := fun A B k m =>
  match m with
  | Return a => k a
  | Throw e => Throw e
  end.

Global Instance Completion_fmap : FMap Completion := fun A B f m =>
  match m with
  | Return a => Return (f a)
  | Throw e => Throw e
  end.

Definition throws {A : Type} (m : Completion A) : Prop :=
  exists e, m = Throw e.

Definition completes {A : Type} (m : Completion A) : Prop :=
  exists a, m = Return a.

(** ** The parts of three.js the passes use *)

(** References to heap objects (object identity). *)
Definition loc := positive.

Inductive TextureFilter : Type := NearestFilter | LinearFilter.
Inductive PixelFormat : Type := RGBFormat | RGBAFormat.
Inductive DepthPacking : Type := BasicDepthPacking | RGBADepthPacking.

(** [new Color(hex)]: the three channels of a 24-bit colour, each kept as the
    fraction [k/255] of its 8-bit code [k]. *)
Record Color : Type := mkColor { r : Q; g : Q; b : Q }.

Definition channel (hex : Z) (shift : Z) : Z :=
  Z.land (Z.shiftr hex shift) 255.

Definition Color_new (hex : Z) : Color :=
  {| r := channel hex 16 # 255;
     g := channel hex 8 # 255;
     b := channel hex 0 # 255 |}.

Record Vector2 : Type := mkVector2 { x : float; y : float }.

(** [new Vector2()] is the zero vector. *)
Definition Vector2_new : Vector2 := {| x := 0; y := 0 |}.

Definition Vector2_set (v : Vector2) (x' y' : float) : Vector2 :=
  {| x := x'; y := y' |}.

Inductive Material : Type :=
| MeshNormalMaterial (morphTargets skinning : bool)
| MeshDepthMaterial (depthPacking : DepthPacking) (morphTargets skinning : bool).

Record Texture : Type := mkTexture {
  texture_name : string;
  minFilter : option TextureFilter;
  magFilter : option TextureFilter;
  format : option PixelFormat;
  generateMipmaps : option bool
}.

Record WebGLRenderTarget : Type := mkTarget {
  width : float;
  height : float;
  texture : Texture
}.

(** Options of [new WebGLRenderTarget(width, height, options)]; an absent
    option is [None]. *)
Record TargetOptions : Type := mkTargetOptions {
  opt_minFilter : option TextureFilter;
  opt_magFilter : option TextureFilter;
  opt_format : option PixelFormat
}.

Abbreviation Heap := (gmap loc WebGLRenderTarget).

(** Modelled from the spec: render target allocation (three.js is not part of
    the sources).  "Given width, height, and a configuration (filtering,
    optional pixel format), returns a target exposing a resizable surface":
    the target is a new heap object that records the configuration it was
    given; a setting that was not given stays absent ([None]: the library's
    own default applies). *)
Definition WebGLRenderTarget_new (w h : float) (o : TargetOptions) (σ : Heap)
  : loc * Heap :=
  let l := fresh (dom σ) in
  (l, <[l := {| width := w; height := h;
                texture := {| texture_name := "";
                              minFilter := opt_minFilter o;
                              magFilter := opt_magFilter o;
                              format := opt_format o;
                              generateMipmaps := None |} |}]> σ).

(** [target.setSize(w, h)]: the resizable surface takes the new dimensions.
    A reference that designates no target cannot be called. *)
Definition WebGLRenderTarget_setSize (l : loc) (w h : float) (σ : Heap)
  : Completion Heap :=
  match σ !! l with
  | Some t => Return (<[l := {| width := w; height := h; texture := texture t |}]> σ)
  | None => Throw (TypeError "renderTarget.setSize is not a function")
  end.

(** [target.texture.name = n; target.texture.generateMipmaps = false]. *)
Definition set_texture_name (n : string) (t : WebGLRenderTarget) : WebGLRenderTarget :=
  {| width := width t; height := height t;
     texture := {| texture_name := n;
                   minFilter := minFilter (texture t);
                   magFilter := magFilter (texture t);
                   format := format (texture t);
                   generateMipmaps := generateMipmaps (texture t) |} |}.

Definition set_texture_generateMipmaps (m : option bool) (t : WebGLRenderTarget) : WebGLRenderTarget :=
  {| width := width t; height := height t;
     texture := {| texture_name := texture_name (texture t);
                   minFilter := minFilter (texture t);
                   magFilter := magFilter (texture t);
                   format := format (texture t);
                   generateMipmaps := m |} |}.

(** A target the graphics backend can draw into has a positive extent on both
    axes (a zero, negative or NaN dimension is not one). *)
Definition valid_target (t : WebGLRenderTarget) : bool :=
  (0 <? width t)%float && (0 <? height t)%float.

(** ** The collaborators of the passes: [Pass] and [RenderPass] *)

(** A reference to a scene or camera object; a missing argument is
    [Undefined]. *)
Inductive Ref : Type :=
| Undefined
| Obj (id : positive).

(** Modelled from the spec: the render delegate ([RenderPass.js] is not part of
    the sources).  It is "configured with the scene, camera, and this pass's
    override material", and clears "to the configured clear color/alpha". *)
Record RenderPass : Type := mkRenderPass {
  scene : Ref;
  camera : Ref;
  overrideMaterial : Material;
  clearColor : Color;
  clearAlpha : float
}.

Record RenderPassOptions : Type := mkRenderPassOptions {
  opt_overrideMaterial : Material;
  opt_clearColor : Color;
  opt_clearAlpha : float
}.

(** Modelled from the spec: [new RenderPass(scene, camera, options)].  Whether
    the delegate's constructor accepts a scene and a camera (a missing one, in
    particular) is not in the sources: [accepts] decides it, and a rejection
    is thrown at once. *)
Definition RenderPass_new (accepts : Ref -> Ref -> bool) (scene camera : Ref)
    (o : RenderPassOptions) : Completion RenderPass :=
  if accepts scene camera then
    Return {| scene := scene; camera := camera;
              overrideMaterial := opt_overrideMaterial o;
              clearColor := opt_clearColor o;
              clearAlpha := opt_clearAlpha o |}
  else Throw (TypeError "RenderPass: invalid scene or camera").

(** One draw instruction received by the renderer: which delegate drew, and
    the two targets it was told to use ([None] is JavaScript's [null], the
    display surface). *)
Record DrawCall : Type := mkDrawCall {
  draw_pass : RenderPass;
  colorTarget : option loc;
  depthTarget : option loc
}.

(** The renderer: what the display surface and every offscreen target
    currently hold (the configuration of the last draw into them), and the
    draw instructions received so far, latest first. *)
Record Renderer : Type := mkRenderer {
  screen : option RenderPass;
  offscreen : gmap loc RenderPass;
  calls : list DrawCall
}.

(** Drawing into one surface.  Modelled from the spec: "if the render target
    is invalid (e.g., zero-sized) the underlying graphics backend's draw call
    fails", and the failure goes to the caller. *)
Definition draw_into (t : option loc) (rp : RenderPass) (rd : Renderer)
    (σ : Heap) : Completion Renderer :=
  match t with
  | None =>
      Return {| screen := Some rp; offscreen := offscreen rd; calls := calls rd |}
  | Some l =>
      match σ !! l with
      | Some tg =>
          if valid_target tg then
            Return {| screen := screen rd; offscreen := <[l := rp]> (offscreen rd);
                      calls := calls rd |}
          else Throw (DrawError "framebuffer incomplete")
      | None => Throw (DrawError "not a render target")
      end
  end.

(** Modelled from the spec: [RenderPass.render(renderer, colorTarget,
    depthTarget)] "renders the configured scene/camera/override-material
    combination into the given target(s), clearing first", and "must accept
    null/absent target to mean render to the display surface". *)
Definition RenderPass_render (rp : RenderPass) (rd : Renderer)
    (colorTarget depthTarget : option loc) (σ : Heap) : Completion Renderer :=
  rd ← draw_into colorTarget rp rd σ;
  rd ← draw_into depthTarget rp rd σ;
  Return {| screen := screen rd; offscreen := offscreen rd;
            calls := mkDrawCall rp colorTarget depthTarget :: calls rd |}.

(** The fields the base class [Pass] gives every pass ([Pass.js] is not part
    of the sources; what [super(name)] does, and whether it completes, is a
    parameter of the constructors below). *)
Record PassBase : Type := mkPassBase {
  base_name : string;
  base_needsSwap : bool;
  base_renderToScreen : bool
}.

(** ** The pass objects *)

Record PassObject : Type := mkPass {
  name : string;
  needsSwap : bool;
  renderToScreen : bool;
  renderPass : RenderPass;
  renderTarget : loc;
  resolution : Vector2;
  resolutionScale : float
}.

(** An [options] object. *)
Record Options : Type := mkOptions {
  options_resolutionScale : option float;
  options_renderTarget : option loc
}.

(** [{}]. *)
Definition no_options : Options :=
  {| options_resolutionScale := None; options_renderTarget := None |}.

(** The third argument of a constructor: left out, [null], or an object. *)
Inductive OptionsArg : Type :=
| OptionsUndefined
| OptionsNull
| OptionsObject (o : Options).

(** The default parameter [options = {}]: only a left-out argument is
    replaced. *)
Definition default_options (options : OptionsArg) : OptionsArg :=
  match options with
  | OptionsUndefined => OptionsObject no_options
  | _ => options
  end.

(** Reading a property of the [options] argument. *)
Definition options_object (options : OptionsArg) : Completion Options :=
  match options with
  | OptionsObject o => Return o
  | OptionsNull => Throw (TypeError "Cannot read properties of null")
  | OptionsUndefined => Throw (TypeError "Cannot read properties of undefined")
  end.

Definition set_renderToScreen (flag : bool) (this : PassObject) : PassObject :=
  {| name := name this; needsSwap := needsSwap this; renderToScreen := flag;
     renderPass := renderPass this; renderTarget := renderTarget this;
     resolution := resolution this; resolutionScale := resolutionScale this |}.

Definition set_resolution (v : Vector2) (this : PassObject) : PassObject :=
  {| name := name this; needsSwap := needsSwap this;
     renderToScreen := renderToScreen this;
     renderPass := renderPass this; renderTarget := renderTarget this;
     resolution := v; resolutionScale := resolutionScale this |}.

Definition set_resolutionScale (s : float) (this : PassObject) : PassObject :=
  {| name := name this; needsSwap := needsSwap this;
     renderToScreen := renderToScreen this;
     renderPass := renderPass this; renderTarget := renderTarget this;
     resolution := resolution this; resolutionScale := s |}.

Module NormalPass.
Section Collaborators.

Variable Pass_super : string -> Completion PassBase.
Variable RenderPass_accepts : Ref -> Ref -> bool.

Definition constructor (scene camera : Ref) (options : OptionsArg)
    (σ : Heap)
  : Completion (PassObject * Heap) :=
  let options := default_options options in
  super ← Pass_super "NormalPass";
  renderPass ←
    RenderPass_new RenderPass_accepts scene camera
      {| opt_overrideMaterial := MeshNormalMaterial true true;
         opt_clearColor := Color_new 0x7777ff;
         opt_clearAlpha := 1 |};
  options ← options_object options;
  let '(renderTarget, σ) :=
    match options_renderTarget options with
    | Some l => (l, σ)
    | None =>
        let '(l, σ) :=
          WebGLRenderTarget_new 1 1
            {| opt_minFilter := Some LinearFilter;
               opt_magFilter := Some LinearFilter;
               opt_format := Some RGBFormat |} σ in
        let σ := alter (set_texture_name "NormalPass.Target") l σ in
        let σ := alter (set_texture_generateMipmaps (Some false)) l σ in
        (l, σ)
    end in
  Return
    ({| name := base_name super;
        needsSwap := false;
        renderToScreen := base_renderToScreen super;
        renderPass := renderPass;
        renderTarget := renderTarget;
        resolution := Vector2_new;
        resolutionScale :=
          match options_resolutionScale options with
          | Some s => s
          | None => 0.5%float
          end |}, σ).

End Collaborators.

Definition getResolutionScale (this : PassObject) : float :=
  resolutionScale this.

Definition setSize (this : PassObject) (width height : float) (σ : Heap)
  : Completion (PassObject * Heap) :=
  let this := set_resolution (Vector2_set (resolution this) width height) this in
  σ ← WebGLRenderTarget_setSize (renderTarget this)
         (Math_max 1 (Math_floor (width * resolutionScale this)))
         (Math_max 1 (Math_floor (height * resolutionScale this))) σ;
  Return (this, σ).

Definition setResolutionScale (this : PassObject) (scale : float) (σ : Heap)
  : Completion (PassObject * Heap) :=
  let this := set_resolutionScale scale this in
  setSize this (x (resolution this)) (y (resolution this)) σ.

Definition render (this : PassObject) (renderer : Renderer)
    (inputBuffer outputBuffer : option loc) (delta : option float)
    (stencilTest : option bool) (σ : Heap) : Completion Renderer :=
  let renderTarget := if renderToScreen this then None else Some (renderTarget this) in
  RenderPass_render (renderPass this) renderer renderTarget renderTarget σ.

End NormalPass.

Module DepthPass.
Section Collaborators.

Variable Pass_super : string -> Completion PassBase.
Variable RenderPass_accepts : Ref -> Ref -> bool.

Definition constructor (scene camera : Ref) (options : OptionsArg)
    (σ : Heap)
  : Completion (PassObject * Heap) :=
  let options := default_options options in
  super ← Pass_super "DepthPass";
  renderPass ←
    RenderPass_new RenderPass_accepts scene camera
      {| opt_overrideMaterial := MeshDepthMaterial RGBADepthPacking true true;
         opt_clearColor := Color_new 0xffffff;
         opt_clearAlpha := 1 |};
  options ← options_object options;
  let '(renderTarget, σ) :=
    match options_renderTarget options with
    | Some l => (l, σ)
    | None =>
        let '(l, σ) :=
          WebGLRenderTarget_new 1 1
            {| opt_minFilter := Some LinearFilter;
               opt_magFilter := Some LinearFilter;
               opt_format := None |} σ in
        let σ := alter (set_texture_name "DepthPass.Target") l σ in
        let σ := alter (set_texture_generateMipmaps (Some false)) l σ in
        (l, σ)
    end in
  Return
    ({| name := base_name super;
        needsSwap := false;
        renderToScreen := base_renderToScreen super;
        renderPass := renderPass;
        renderTarget := renderTarget;
        resolution := Vector2_new;
        resolutionScale :=
          match options_resolutionScale options with
          | Some s => s
          | None => 0.5%float
          end |}, σ).

End Collaborators.

Definition getResolutionScale (this : PassObject) : float :=
  resolutionScale this.

Definition setSize (this : PassObject) (width height : float) (σ : Heap)
  : Completion (PassObject * Heap) :=
  let this := set_resolution (Vector2_set (resolution this) width height) this in
  σ ← WebGLRenderTarget_setSize (renderTarget this)
         (Math_max 1 (Math_floor (width * resolutionScale this)))
         (Math_max 1 (Math_floor (height * resolutionScale this))) σ;
  Return (this, σ).

Definition setResolutionScale (this : PassObject) (scale : float) (σ : Heap)
  : Completion (PassObject * Heap) :=
  let this := set_resolutionScale scale this in
  setSize this (x (resolution this)) (y (resolution this)) σ.

Definition render (this : PassObject) (renderer : Renderer)
    (inputBuffer outputBuffer : option loc) (delta : option float)
    (stencilTest : option bool) (σ : Heap) : Completion Renderer :=
  let renderTarget := if renderToScreen this then None else Some (renderTarget this) in
  RenderPass_render (renderPass this) renderer renderTarget renderTarget σ.

End DepthPass.

(** ** Instances of either class, and the calls a pipeline makes on them *)

Inductive PassClass : Type := NormalPassClass | DepthPassClass.

Section Dispatch.

Variable Pass_super : string -> Completion PassBase.
Variable RenderPass_accepts : Ref -> Ref -> bool.

Definition new (c : PassClass) : Ref -> Ref -> OptionsArg -> Heap ->
    Completion (PassObject * Heap) :=
  match c with
  | NormalPassClass => NormalPass.constructor Pass_super RenderPass_accepts
  | DepthPassClass => DepthPass.constructor Pass_super RenderPass_accepts
  end.

End Dispatch.

Definition getResolutionScale (c : PassClass) : PassObject -> float :=
  match c with
  | NormalPassClass => NormalPass.getResolutionScale
  | DepthPassClass => DepthPass.getResolutionScale
  end.

Definition setSize (c : PassClass) : PassObject -> float -> float -> Heap ->
    Completion (PassObject * Heap) :=
  match c with
  | NormalPassClass => NormalPass.setSize
  | DepthPassClass => DepthPass.setSize
  end.

Definition setResolutionScale (c : PassClass) : PassObject -> float -> Heap ->
    Completion (PassObject * Heap) :=
  match c with
  | NormalPassClass => NormalPass.setResolutionScale
  | DepthPassClass => DepthPass.setResolutionScale
  end.

Definition render (c : PassClass) : PassObject -> Renderer ->
    option loc -> option loc -> option float -> option bool -> Heap ->
    Completion Renderer :=
  match c with
  | NormalPassClass => NormalPass.render
  | DepthPassClass => DepthPass.render
  end.

(** The pass, the heap of render targets and the renderer, as one state. *)
Record State : Type := mkState {
  this : PassObject;
  heap : Heap;
  gl : Renderer
}.

(** What the owning pipeline does to a pass between construction and
    disposal. *)
Inductive Call : Type :=
| call_setSize (width height : float)
| call_setResolutionScale (scale : float)
| call_render (inputBuffer outputBuffer : option loc) (delta : option float)
    (stencilTest : option bool)
| assign_renderToScreen (flag : bool).

Definition invoke (c : PassClass) (call : Call) (st : State) : Completion State :=
  match call with
  | call_setSize w h =>
      '(p, σ) ← setSize c (this st) w h (heap st);
      Return {| this := p; heap := σ; gl := gl st |}
  | call_setResolutionScale s =>
      '(p, σ) ← setResolutionScale c (this st) s (heap st);
      Return {| this := p; heap := σ; gl := gl st |}
  | call_render i o d s =>
      rd ← render c (this st) (gl st) i o d s (heap st);
      Return {| this := this st; heap := heap st; gl := rd |}
  | assign_renderToScreen flag =>
      Return {| this := set_renderToScreen flag (this st); heap := heap st;
                gl := gl st |}
  end.

(** The dimensions of the pass's render target, read from the heap. *)
Definition target_size (p : PassObject) (σ : Heap) : option (float * float) :=
  t ← σ !! renderTarget p; Some (width t, height t).

(** A pass is well placed in a heap when its render target is a live object
    there; the options of a constructor are, when the target they supply
    is. *)
Definition target_allocated (p : PassObject) (σ : Heap) : Prop :=
  is_Some (σ !! renderTarget p).

Definition options_allocated (o : Options) (σ : Heap) : Prop :=
  forall l, options_renderTarget o = Some l -> is_Some (σ !! l).

(** The base constructor completes, whatever the name it is given. *)
Definition base_constructs (Pass_super : string -> Completion PassBase) : Prop :=
  forall n, completes (Pass_super n).

(** Every state a pass can be in: freshly constructed, or obtained from a
    reachable state by one more call that completed. *)
Inductive reachable (Pass_super : string -> Completion PassBase)
    (RenderPass_accepts : Ref -> Ref -> bool) (c : PassClass)
  : State -> Prop :=
| reachable_new scene camera options σ rd p σ' :
    new Pass_super RenderPass_accepts c scene camera options σ = Return (p, σ') ->
    reachable Pass_super RenderPass_accepts c {| this := p; heap := σ'; gl := rd |}
| reachable_invoke st call st' :
    reachable Pass_super RenderPass_accepts c st ->
    invoke c call st = Return st' ->
    reachable Pass_super RenderPass_accepts c st'.

(** A sequence of calls, made one after the other; an error ends it. *)
Fixpoint run (c : PassClass) (calls : list Call) (st : State)
  : Completion State :=
  match calls with
  | [] => Return st
  | call :: calls => st' ← invoke c call st; run c calls st'
  end.

(** ** Notions used to state what the methods keep *)

(** The length [setSize] gives one axis of the render target. *)
Definition scaled (len s : float) : float :=
  Math_max 1 (Math_floor (len * s)).

(** The render target has the size that the stored resolution and the stored
    scale give. *)
Definition sized (p : PassObject) (σ : Heap) : Prop :=
  target_size p σ =
  Some (scaled (x (resolution p)) (resolutionScale p),
        scaled (y (resolution p)) (resolutionScale p)).

Definition is_resize (call : Call) : bool :=
  match call with
  | call_setSize _ _ | call_setResolutionScale _ => true
  | call_render _ _ _ _ | assign_renderToScreen _ => false
  end.

(** The scale and the resolution that a sequence of calls leaves stored: those
    of the latest [setResolutionScale], respectively [setSize], if any. *)
Definition last_scale (calls : list Call) (s0 : float) : float :=
  foldl (fun s call =>
           match call with call_setResolutionScale s' => s' | _ => s end)
        s0 calls.

Definition last_size (calls : list Call) (wh0 : float * float) : float * float :=
  foldl (fun wh call =>
           match call with call_setSize w h => (w, h) | _ => wh end)
        wh0 calls.

(** A binary64 value, in the representation of the specification, that is a
    number (not NaN) and carries the sign [+]. *)
Definition nonneg_sf (x : spec_float) : Prop :=
  match x with
  | S754_nan => False
  | S754_zero b | S754_infinity b | S754_finite b _ _ => b = false
  end.

(** The scale option of a constructor is absent or a finite number. *)
Definition finite_scale (o : Options) : Prop :=
  forall s, options_resolutionScale o = Some s -> is_finite s = true.

(** ** Concrete values for the examples *)

(** A base class that names the pass, swaps by default and renders offscreen;
    a delegate that takes any scene and camera, and one that rejects a missing
    one; a caller-made 512 x 256 target. *)
Definition example_super (n : string) : Completion PassBase :=
  Return {| base_name := n; base_needsSwap := true; base_renderToScreen := false |}.

Definition lenient_delegate (scene camera : Ref) : bool := true.

Definition strict_delegate (scene camera : Ref) : bool :=
  match scene, camera with
  | Obj _, Obj _ => true
  | _, _ => false
  end.

Definition example_target : WebGLRenderTarget :=
  {| width := 512; height := 256;
     texture := {| texture_name := "custom";
                   minFilter := Some NearestFilter;
                   magFilter := Some NearestFilter;
                   format := Some RGBAFormat;
                   generateMipmaps := Some true |} |}.

Definition example_heap : Heap := {[ 7%positive := example_target ]}.

Definition example_pass : PassObject :=
  {| name := "NormalPass"; needsSwap := false; renderToScreen := true;
     renderPass :=
       {| scene := Obj 1; camera := Obj 2;
          overrideMaterial := MeshNormalMaterial true true;
          clearColor := Color_new 0x7777ff;
          clearAlpha := 1 |};
     renderTarget := 7%positive;
     resolution := Vector2_new;
     resolutionScale := 0.5 |}.

Definition empty_renderer : Renderer :=
  {| screen := None; offscreen := ∅; calls := [] |}.

(** The numbers 0.7 and 0.57 as JavaScript reads them (the nearest binary64
    values). *)
Definition seven_tenths : float := 0x1.6666666666666p-1.
Definition fifty_seven_hundredths : float := 0x1.23d70a3d70a3dp-1.

(** * Properties *)

(** ** Facts about binary64 numbers *)

Lemma Math_max_1 (y : float) :
  Math_max 1 y = if is_nan y then nan else if (1 <? y)%float then y else 1%float.
Proof.
  unfold Math_max. change (is_nan 1) with false. cbn [orb].
  change (is_zero 1 && get_sign 1) with false.
  destruct (is_nan y), (1 <? y)%float, (y <? 1)%float; reflexivity.
Qed.

Lemma is_finite_cases (s : float) :
  is_finite s = true ->
  (exists b, Prim2SF s = S754_zero b)
  \/ (exists b m e, Prim2SF s = S754_finite b m e).
Proof.
  unfold is_finite, is_nan, is_infinity.
  rewrite !FloatAxioms.eqb_spec, abs_spec.
  destruct (Prim2SF s) as [b|b| |b m e] eqn:E; cbn; try discriminate; eauto.
  destruct b; cbn; discriminate.
Qed.

(** Zero times a finite number is a zero, of either sign. *)
Lemma zero_times_finite (s : float) :
  is_finite s = true -> (0 * s = 0 \/ 0 * s = -0)%float.
Proof.
  intros Hs. rewrite <- (SF2Prim_Prim2SF (0 * s)), mul_spec.
  change (Prim2SF 0) with (S754_zero false).
  destruct (is_finite_cases s Hs) as [[b ->]|(b & m & e & ->)];
    destruct b; cbn; auto.
Qed.

Lemma scaled_zero (s : float) : is_finite s = true -> scaled 0 s = 1%float.
Proof.
  intros Hs. unfold scaled.
  destruct (zero_times_finite s Hs) as [-> | ->]; reflexivity.
Qed.

Lemma SFcompare_Lt_swap (a b : spec_float) :
  SFcompare a b = Some Lt -> SFcompare b a = Some Gt.
Proof.
  destruct a as [sa|sa| |sa ma ea], b as [sb|sb| |sb mb eb]; cbn;
    try discriminate; try (destruct sa); try (destruct sb);
    try discriminate; try reflexivity.
  - rewrite (Z.compare_antisym ea eb).
    assert (H : Pos.compare_cont Eq mb ma = CompOpp (Pos.compare_cont Eq ma mb))
      by (symmetry; apply (Pos.compare_cont_antisym ma mb Eq)).
    rewrite H.
    destruct (ea ?= eb), (Pos.compare_cont Eq ma mb); cbn;
      intros; try discriminate; reflexivity.
  - rewrite (Z.compare_antisym ea eb).
    assert (H : Pos.compare_cont Eq mb ma = CompOpp (Pos.compare_cont Eq ma mb))
      by (symmetry; apply (Pos.compare_cont_antisym ma mb Eq)).
    rewrite H.
    destruct (ea ?= eb), (Pos.compare_cont Eq ma mb); cbn;
      intros; try discriminate; reflexivity.
Qed.

Lemma ltb_asym (a b : float) : (a <? b)%float = true -> (b <? a)%float = false.
Proof.
  rewrite !ltb_spec. unfold SFltb.
  destruct (SFcompare (Prim2SF a) (Prim2SF b)) as [[]|] eqn:E; try discriminate.
  rewrite (SFcompare_Lt_swap _ _ E). reflexivity.
Qed.

Lemma ltb_leb (a b : float) : (a <? b)%float = true -> (a <=? b)%float = true.
Proof.
  rewrite ltb_spec, leb_spec. unfold SFltb, SFleb.
  destruct (SFcompare (Prim2SF a) (Prim2SF b)) as [[]|];
    try discriminate; reflexivity.
Qed.

(** What the clamp [Math.max(1, y)] guarantees. *)
Lemma Math_max_1_bounds (y : float) :
  (Math_max 1 y <? 1)%float = false
  /\ (is_nan (Math_max 1 y) = true \/ (1 <=? Math_max 1 y)%float = true)
  /\ (is_nan y = false -> (1 <=? Math_max 1 y)%float = true).
Proof.
  rewrite Math_max_1. destruct (is_nan y) eqn:Hn.
  - split; [reflexivity|]. split; [left; reflexivity | discriminate].
  - destruct (1 <? y)%float eqn:Hlt.
    + split; [apply ltb_asym; exact Hlt|].
      split; [right|intros _]; apply ltb_leb; exact Hlt.
    + split; [reflexivity|]. split; [right|intros _]; reflexivity.
Qed.

(** [Math.floor] and [Math.max] on sample numbers. *)
Example Math_floor_samples :
  (Math_floor 1343.5, Math_floor 0.5, Math_floor (-0.5), Math_floor (-2.5),
   Math_floor (-2), Math_floor (-0), Math_floor 0x1p60, Math_floor infinity,
   Math_floor neg_infinity)
  = (1343, 0, -1, -3, -2, -0, 0x1p60, infinity, neg_infinity)%float
  /\ is_nan (Math_floor nan) = true.
Proof. split; vm_compute; reflexivity. Qed.

Example Math_max_samples :
  (Math_max 1 0, Math_max 1 (-5), Math_max 1 1344, Math_max 1 infinity,
   Math_max 0 (-0), Math_max (-0) 0)
  = (1, 1, 1344, infinity, 0, 0)%float
  /\ is_nan (Math_max 1 nan) = true.
Proof. split; vm_compute; reflexivity. Qed.

(** ** Equations of the methods *)

Lemma setSize_unfold c p w h σ :
  setSize c p w h σ =
  (σ' ← WebGLRenderTarget_setSize (renderTarget p)
          (scaled w (resolutionScale p)) (scaled h (resolutionScale p)) σ;
   Return (set_resolution {| x := w; y := h |} p, σ')).
Proof. destruct c; reflexivity. Qed.

Lemma setResolutionScale_unfold c p s σ :
  setResolutionScale c p s σ =
  setSize c (set_resolutionScale s p) (x (resolution p)) (y (resolution p)) σ.
Proof. destruct c; reflexivity. Qed.

Lemma render_unfold c p rd i o d s σ :
  render c p rd i o d s σ =
  let t := if renderToScreen p then None else Some (renderTarget p) in
  RenderPass_render (renderPass p) rd t t σ.
Proof. destruct c; reflexivity. Qed.

Lemma getResolutionScale_unfold c p : getResolutionScale c p = resolutionScale p.
Proof. destruct c; reflexivity. Qed.

Lemma setSize_Return c p w h σ t :
  σ !! renderTarget p = Some t ->
  setSize c p w h σ =
  Return (set_resolution {| x := w; y := h |} p,
          <[renderTarget p :=
              {| width := scaled w (resolutionScale p);
                 height := scaled h (resolutionScale p);
                 texture := texture t |}]> σ).
Proof.
  intros Ht. rewrite setSize_unfold.
  unfold WebGLRenderTarget_setSize. rewrite Ht. reflexivity.
Qed.

Lemma setSize_Throw c p w h σ :
  σ !! renderTarget p = None -> throws (setSize c p w h σ).
Proof.
  intros Ht. rewrite setSize_unfold.
  unfold WebGLRenderTarget_setSize. rewrite Ht. eexists. reflexivity.
Qed.

Lemma setResolutionScale_Return c p s σ t :
  σ !! renderTarget p = Some t ->
  setResolutionScale c p s σ =
  Return (set_resolution {| x := x (resolution p); y := y (resolution p) |}
            (set_resolutionScale s p),
          <[renderTarget p :=
              {| width := scaled (x (resolution p)) s;
                 height := scaled (y (resolution p)) s;
                 texture := texture t |}]> σ).
Proof.
  intros Ht. rewrite setResolutionScale_unfold.
  apply (setSize_Return c (set_resolutionScale s p)). exact Ht.
Qed.

Lemma target_size_insert p σ t :
  target_size p (<[renderTarget p := t]> σ) = Some (width t, height t).
Proof. unfold target_size. rewrite lookup_insert_eq. reflexivity. Qed.

(** ** Construction *)

(** With a target supplied by the caller the constructor allocates nothing
    and writes to no heap object. *)
Lemma new_external sup acc c sc cam o σ l :
  base_constructs sup ->
  acc sc cam = true ->
  options_renderTarget o = Some l ->
  exists p, new sup acc c sc cam (OptionsObject o) σ = Return (p, σ)
    /\ renderTarget p = l
    /\ needsSwap p = false
    /\ resolution p = Vector2_new
    /\ resolutionScale p = default 0.5%float (options_resolutionScale o)
    /\ scene (renderPass p) = sc /\ camera (renderPass p) = cam.
Proof.
  intros Hsup Hacc Hl.
  destruct c; unfold new, NormalPass.constructor, DepthPass.constructor,
    RenderPass_new;
    [destruct (Hsup "NormalPass"%string) as [bs Hbs]
    |destruct (Hsup "DepthPass"%string) as [bs Hbs]];
    rewrite Hbs, Hacc; cbn; rewrite Hl;
    eexists; (split; [reflexivity|]); cbn;
    destruct (options_resolutionScale o); repeat split.
Qed.

(** Without one, the constructor allocates a 1 x 1 target at a fresh
    reference, with linear filtering and no mipmaps, and leaves every other
    object alone. *)
Lemma new_internal sup acc c sc cam o σ :
  base_constructs sup ->
  acc sc cam = true ->
  options_renderTarget o = None ->
  exists p t,
    new sup acc c sc cam (OptionsObject o) σ
      = Return (p, <[renderTarget p := t]> σ)
    /\ σ !! renderTarget p = None
    /\ width t = 1%float /\ height t = 1%float
    /\ minFilter (texture t) = Some LinearFilter
    /\ magFilter (texture t) = Some LinearFilter
    /\ generateMipmaps (texture t) = Some false
    /\ texture_name (texture t) =
         match c with
         | NormalPassClass => "NormalPass.Target"%string
         | DepthPassClass => "DepthPass.Target"%string
         end
    /\ format (texture t) =
         match c with
         | NormalPassClass => Some RGBFormat
         | DepthPassClass => None
         end
    /\ needsSwap p = false
    /\ resolution p = Vector2_new
    /\ resolutionScale p = default 0.5%float (options_resolutionScale o)
    /\ scene (renderPass p) = sc /\ camera (renderPass p) = cam.
Proof.
  intros Hsup Hacc Hl.
  assert (Hfresh : σ !! fresh (dom σ) = None)
    by (apply not_elem_of_dom, is_fresh).
  destruct c; unfold new, NormalPass.constructor, DepthPass.constructor,
    RenderPass_new, WebGLRenderTarget_new;
    [destruct (Hsup "NormalPass"%string) as [bs Hbs]
    |destruct (Hsup "DepthPass"%string) as [bs Hbs]];
    rewrite Hbs, Hacc; cbn; rewrite Hl, !alter_insert_eq;
    eexists (mkPass _ _ _ _ (fresh (dom σ)) _ _), _; (split; [reflexivity|]);
    destruct (options_resolutionScale o); repeat split; exact Hfresh.
Qed.

(** A pass left without an [options] argument is constructed like one given
    [{}]. *)
Lemma new_default_options sup acc c sc cam σ :
  new sup acc c sc cam OptionsUndefined σ
  = new sup acc c sc cam (OptionsObject no_options) σ.
Proof. destruct c; reflexivity. Qed.

(** When the collaborators complete and the target given (if any) is a live
    object, the constructor completes and the new pass holds a live
    target. *)
Lemma new_allocated sup acc c sc cam o σ :
  base_constructs sup ->
  acc sc cam = true ->
  options_allocated o σ ->
  exists p σ' t,
    new sup acc c sc cam (OptionsObject o) σ = Return (p, σ')
    /\ σ' !! renderTarget p = Some t
    /\ needsSwap p = false
    /\ resolution p = Vector2_new
    /\ resolutionScale p = default 0.5%float (options_resolutionScale o)
    /\ (forall l t0, options_renderTarget o = Some l -> σ !! l = Some t0 ->
          renderTarget p = l /\ σ' = σ /\ t = t0).
Proof.
  intros Hsup Hacc Ho. destruct (options_renderTarget o) as [l|] eqn:Hl.
  - destruct (Ho l Hl) as [t Ht].
    destruct (new_external sup acc c sc cam o σ l Hsup Hacc Hl)
      as (p & Hnew & Hp & Hswap & Hres & Hscale & _).
    exists p, σ, t. rewrite Hp.
    split; [exact Hnew|]. split; [exact Ht|]. split; [exact Hswap|].
    split; [exact Hres|]. split; [exact Hscale|].
    intros l' t0 [= <-] Ht0. repeat split. congruence.
  - destruct (new_internal sup acc c sc cam o σ Hsup Hacc Hl)
      as (p & t & Hnew & _ & _ & _ & _ & _ & _ & _ & _ & Hswap & Hres & Hscale & _).
    exists p, (<[renderTarget p := t]> σ), t.
    split; [exact Hnew|]. split; [apply lookup_insert_eq|].
    split; [exact Hswap|]. split; [exact Hres|]. split; [exact Hscale|].
    intros l t0 Hl'. discriminate Hl'.
Qed.

(** ** Rounding a non-negative integer, and the clamp of small numbers *)

Lemma digits2_pos_bound (m : positive) : Z.pos m < 2 ^ Z.pos (digits2_pos m).
Proof.
  induction m as [m IH|m IH|]; cbn [digits2_pos].
  - rewrite Pos2Z.inj_succ, Z.pow_succ_r by lia. lia.
  - rewrite Pos2Z.inj_succ, Z.pow_succ_r by lia. lia.
  - reflexivity.
Qed.

Lemma valid_mantissa_bound (y : float) (s : bool) (m : positive) (e : Z) :
  Prim2SF y = S754_finite s m e -> Z.pos m < 2 ^ 53 /\ -1074 <= e.
Proof.
  intros E. pose proof (Prim2SF_valid y) as V. rewrite E in V.
  cbn [SpecFloat.valid_binary] in V. unfold bounded, canonical_mantissa, fexp, emin in V.
  apply andb_prop in V. destruct V as [V _]. apply Z.eqb_eq in V.
  change prec with 53 in V. change emax with 1024 in V.
  pose proof (digits2_pos_bound m) as Hd.
  assert (Z.pos (digits2_pos m) <= 53) by lia.
  split; [|lia].
  eapply Z.lt_le_trans; [exact Hd|]. apply Z.pow_le_mono_r; lia.
Qed.

Lemma shr_1_nonneg mrs : 0 <= shr_m mrs -> 0 <= shr_m (shr_1 mrs).
Proof.
  destruct mrs as [m r s]. cbn. destruct m as [|p|p]; cbn; try lia;
    destruct p; cbn; lia.
Qed.

Lemma iter_pos_shr_1_nonneg p mrs :
  0 <= shr_m mrs -> 0 <= shr_m (SpecFloat.iter_pos shr_1 p mrs).
Proof.
  revert mrs. induction p as [p IH|p IH|]; intros mrs H; cbn.
  - apply IH, IH, shr_1_nonneg, H.
  - apply IH, IH, H.
  - apply shr_1_nonneg, H.
Qed.

Lemma shr_fexp_nonneg m e l :
  0 <= m -> 0 <= shr_m (fst (shr_fexp prec emax m e l)).
Proof.
  intros H. unfold shr_fexp, shr.
  assert (H0 : 0 <= shr_m (shr_record_of_loc m l))
    by (destruct l as [|[]]; cbn; exact H).
  destruct (fexp prec emax (Zdigits2 m + e) - e) as [|p|p]; cbn; try exact H0.
  apply iter_pos_shr_1_nonneg, H0.
Qed.

Lemma round_nearest_even_nonneg m l : 0 <= m -> 0 <= round_nearest_even m l.
Proof.
  intros H. destruct l as [|[]]; cbn; try lia. destruct (Z.even m); lia.
Qed.

Lemma binary_round_aux_nonneg m e l :
  0 <= m -> nonneg_sf (binary_round_aux prec emax false m e l).
Proof.
  intros H. unfold binary_round_aux.
  pose proof (shr_fexp_nonneg m e l H) as H1.
  destruct (shr_fexp prec emax m e l) as [mrs' e'] eqn:E1. cbn [fst] in H1.
  pose proof (shr_fexp_nonneg _ e' loc_Exact
                (round_nearest_even_nonneg _ (loc_of_shr_record mrs') H1)) as H2.
  destruct (shr_fexp prec emax _ e' loc_Exact) as [mrs'' e''] eqn:E2.
  cbn [fst] in H2.
  destruct (shr_m mrs'') as [|p|p]; cbn; try reflexivity; try lia.
  destruct (e'' <=? emax - prec); reflexivity.
Qed.

Lemma binary_normalize_nonneg (n : Z) :
  0 <= n -> nonneg_sf (binary_normalize prec emax n 0 false).
Proof.
  intros H. destruct n as [|p|p]; cbn [binary_normalize]; try lia.
  - reflexivity.
  - unfold binary_round.
    destruct (shl_align p 0 _) as [mz ez]. apply binary_round_aux_nonneg. lia.
Qed.

Lemma Z2Number_nonneg (n : Z) : nonneg_sf (Prim2SF (Z2Number n)).
Proof.
  unfold Z2Number. rewrite of_uint63_spec. apply binary_normalize_nonneg.
  apply Uint63.to_Z_bounded.
Qed.

Lemma SFcompare_refl (x : spec_float) : x <> S754_nan -> SFcompare x x = Some Eq.
Proof.
  destruct x as [b|b| |b m e]; cbn; intros H; try congruence;
    try (destruct b; reflexivity).
  rewrite Z.compare_refl.
  assert (Hm : Pos.compare_cont Eq m m = Eq) by apply Pos.compare_cont_refl.
  rewrite Hm. destruct b; reflexivity.
Qed.

Lemma is_nan_false (y : float) : Prim2SF y <> S754_nan -> is_nan y = false.
Proof.
  intros H. unfold is_nan. rewrite FloatAxioms.eqb_spec. unfold SFeqb.
  rewrite (SFcompare_refl _ H). reflexivity.
Qed.

(** A number that is zero or negative is clamped to 1. *)
Lemma Math_max_1_nonpos (y : float) :
  nonneg_sf (SFopp (Prim2SF y)) -> Math_max 1 y = 1%float.
Proof.
  intros H. rewrite Math_max_1.
  assert (Hn : Prim2SF y <> S754_nan)
    by (intros E; rewrite E in H; exact H).
  rewrite (is_nan_false y Hn).
  rewrite ltb_spec. change (Prim2SF 1) with (S754_finite false 4503599627370496 (-52)).
  destruct (Prim2SF y) as [b|b| |b m e]; cbn in H |- *; try contradiction;
    destruct b; try discriminate; reflexivity.
Qed.

Lemma clamp_small (y : float) :
  (y <=? 1)%float = true -> Math_max 1 (Math_floor y) = 1%float.
Proof.
  rewrite leb_spec.
  change (Prim2SF 1) with (S754_finite false 4503599627370496 (-52)).
  unfold Math_floor.
  destruct (Prim2SF y) as [b|b| |b m e] eqn:E.
  - intros _. rewrite <- (SF2Prim_Prim2SF y), E. destruct b; reflexivity.
  - destruct b; cbn; [intros _|discriminate].
    rewrite <- (SF2Prim_Prim2SF y), E. reflexivity.
  - cbn. discriminate.
  - destruct (valid_mantissa_bound y b m e E) as [Hm He].
    destruct b.
    + intros _. destruct (0 <=? e) eqn:Hpos.
      * apply Math_max_1_nonpos. rewrite E. reflexivity.
      * apply Math_max_1_nonpos. rewrite opp_spec.
        match goal with
        | |- context [Z2Number ?n] =>
            pose proof (Z2Number_nonneg n) as Hn;
            destruct (Prim2SF (Z2Number n)) as [b|b| |b m' e']
        end; cbn in Hn |- *; try contradiction; subst b; reflexivity.
    + unfold SFleb. cbn [SFcompare].
      destruct (e ?= -52) eqn:Hc; try discriminate.
      * apply Z.compare_eq in Hc. subst e. cbn [Z.leb Z.compare].
        change (- (-52)) with 52.
        destruct (Pos.compare_cont Eq m 4503599627370496) eqn:Hcm;
          try discriminate; intros _.
        -- apply Pos.compare_eq in Hcm. subst m. reflexivity.
        -- assert (Hlt : Z.pos m < 2 ^ 52)
             by (change (2 ^ 52) with (Z.pos 4503599627370496);
                 apply Pos2Z.pos_lt_pos; exact Hcm).
           rewrite (Z.div_small (Z.pos m) (2 ^ 52)) by lia. reflexivity.
      * intros _. rewrite Z.compare_lt_iff in Hc.
        assert (H0 : (0 <=? e) = false) by (apply Z.leb_gt; lia).
        rewrite H0.
        assert (Hp : 2 ^ 53 <= 2 ^ (- e)) by (apply Z.pow_le_mono_r; lia).
        rewrite (Z.div_small (Z.pos m) (2 ^ (- e))) by lia. reflexivity.
Qed.

Lemma one_le_positive (r : float) :
  (1 <=? r)%float = true -> (0 <? r)%float = true.
Proof.
  rewrite leb_spec, ltb_spec.
  change (Prim2SF 1) with (S754_finite false 4503599627370496 (-52)).
  change (Prim2SF 0) with (S754_zero false).
  destruct (Prim2SF r) as [b|b| |b m e]; cbn; try discriminate;
    destruct b; try discriminate; reflexivity.
Qed.

(** ** Sizing of the render target *)



(** The rule on numbers whose products are not exact: at scale 0.7 a
    1920 x 1080 resolution gives 1344 x 756 (the rounded products are exactly
    1344 and 756), at scale 0.57 a 100 x 200 resolution gives 56 x 113, and a
    product that overflows gives an infinite dimension. *)
Example setSize_1920_1080_at_seven_tenths :
  ('(p, σ) ← setSize NormalPassClass
               (set_resolutionScale seven_tenths example_pass) 1920 1080
               example_heap;
   Return (target_size p σ)) = Return (Some (1344%float, 756%float)).
Proof. vm_compute. reflexivity. Qed.

Example setSize_100_200_at_fifty_seven_hundredths :
  ('(p, σ) ← setSize DepthPassClass
               (set_resolutionScale fifty_seven_hundredths example_pass) 100 200
               example_heap;
   Return (target_size p σ)) = Return (Some (56%float, 113%float)).
Proof. vm_compute. reflexivity. Qed.

Example setSize_overflow :
  ('(p, σ) ← setSize NormalPassClass (set_resolutionScale 10 example_pass)
               0x1p1023 1 example_heap;
   Return (target_size p σ)) = Return (Some (infinity, 10%float)).
Proof. vm_compute. reflexivity. Qed.

(** C8: for positive [w] and [h], two successive calls [setSize(w, h)] both
    complete, and the second leaves the render target with the dimensions it
    had after the first (it leaves the whole state as it was). *)
Theorem setSize_idempotent (c : PassClass) (p : PassObject) (σ : Heap)
    (w h : float) :
  (0 <? w)%float = true -> (0 <? h)%float = true ->
  target_allocated p σ ->
  exists p1 σ1 p2 σ2,
    setSize c p w h σ = Return (p1, σ1)
    /\ setSize c p1 w h σ1 = Return (p2, σ2)
    /\ is_Some (target_size p1 σ1)
    /\ target_size p2 σ2 = target_size p1 σ1
    /\ p2 = p1 /\ σ2 = σ1.
Proof.
  intros _ _ [t Ht].
  pose proof (setSize_Return c p w h σ t Ht) as H1.
  set (p1 := set_resolution {| x := w; y := h |} p) in *.
  set (t1 := {| width := scaled w (resolutionScale p);
                height := scaled h (resolutionScale p);
                texture := texture t |}) in *.
  assert (Ht1 : <[renderTarget p := t1]> σ !! renderTarget p1 = Some t1)
    by apply lookup_insert_eq.
  pose proof (setSize_Return c p1 w h _ t1 Ht1) as H2.
  change (renderTarget p1) with (renderTarget p) in H2.
  rewrite insert_insert_eq in H2.
  exists p1, (<[renderTarget p := t1]> σ), p1, (<[renderTarget p := t1]> σ).
  split; [exact H1|]. split; [exact H2|].
  split; [|repeat split].
  exists (width t1, height t1). exact (target_size_insert p1 σ t1).
Qed.

Lemma setSize_idempotent_witness :
  exists p1 σ1 p2 σ2,
    setSize DepthPassClass example_pass 800 600 example_heap = Return (p1, σ1)
    /\ setSize DepthPassClass p1 800 600 σ1 = Return (p2, σ2)
    /\ is_Some (target_size p1 σ1)
    /\ target_size p2 σ2 = target_size p1 σ1
    /\ p2 = p1 /\ σ2 = σ1.
Proof.
  apply (setSize_idempotent DepthPassClass example_pass example_heap 800 600).
  - reflexivity.
  - reflexivity.
  - exists example_target. reflexivity.
Defined.

(** C2: after [setSize(w, h)] on a pass with scale [s1], a call
    [setResolutionScale(s2)] completes and leaves the render target with the
    dimensions that a pass constructed with [resolutionScale: s2] has after
    [setSize(w, h)] alone, namely those the sizing rule gives for [s2]. *)
Theorem setResolutionScale_rederives_size
    (sup : string -> Completion PassBase) (acc : Ref -> Ref -> bool)
    (c : PassClass) (p : PassObject) (σ : Heap) (sc cam : Ref) (o : Options)
    (σ0 : Heap) (w h s1 s2 : float) :
  (0 <? w)%float = true -> (0 <? h)%float = true ->
  (0 <? s1)%float = true -> (0 <? s2)%float = true ->
  resolutionScale p = s1 ->
  target_allocated p σ ->
  base_constructs sup -> acc sc cam = true ->
  options_resolutionScale o = Some s2 ->
  options_allocated o σ0 ->
  exists pa σa pb σb,
    ('(p1, σ1) ← setSize c p w h σ; setResolutionScale c p1 s2 σ1)
      = Return (pa, σa)
    /\ ('(q, σq) ← new sup acc c sc cam (OptionsObject o) σ0;
        setSize c q w h σq) = Return (pb, σb)
    /\ target_size pa σa = target_size pb σb
    /\ target_size pa σa =
         Some (Math_max 1 (Math_floor (w * s2)),
               Math_max 1 (Math_floor (h * s2))).
Proof.
  intros _ _ _ _ _ [t Ht] Hsup Hacc Hs2 Ho.
  pose proof (setSize_Return c p w h σ t Ht) as H1.
  set (p1 := set_resolution {| x := w; y := h |} p) in *.
  set (σ1 := <[renderTarget p := _]> σ) in H1.
  assert (Ht1 : exists t1, σ1 !! renderTarget p1 = Some t1)
    by (eexists; apply lookup_insert_eq).
  destruct Ht1 as [t1 Ht1].
  pose proof (setResolutionScale_Return c p1 s2 σ1 t1 Ht1) as H2.
  destruct (new_allocated sup acc c sc cam o σ0 Hsup Hacc Ho)
    as (q & σq & tq & Hnew & Htq & _ & _ & Hscale & _).
  rewrite Hs2 in Hscale. cbn in Hscale.
  pose proof (setSize_Return c q w h σq tq Htq) as H3.
  eexists _, _, _, _. split; [|split; [|split]].
  - rewrite H1. cbn. exact H2.
  - rewrite Hnew. cbn. exact H3.
  - rewrite Hscale.
    rewrite (target_size_insert (set_resolution _ (set_resolutionScale s2 p1))).
    rewrite (target_size_insert (set_resolution _ q)). reflexivity.
  - exact (target_size_insert (set_resolution _ (set_resolutionScale s2 p1)) σ1 _).
Qed.

Lemma setResolutionScale_rederives_size_witness :
  exists pa σa pb σb,
    ('(p1, σ1) ← setSize NormalPassClass example_pass 800 600 example_heap;
     setResolutionScale NormalPassClass p1 0.25 σ1) = Return (pa, σa)
    /\ ('(q, σq) ← new example_super lenient_delegate NormalPassClass
                     (Obj 1) (Obj 2)
                     (OptionsObject
                        {| options_resolutionScale := Some 0.25%float;
                           options_renderTarget := None |}) ∅;
        setSize NormalPassClass q 800 600 σq) = Return (pb, σb)
    /\ target_size pa σa = target_size pb σb
    /\ target_size pa σa =
         Some (Math_max 1 (Math_floor (800 * 0.25)),
               Math_max 1 (Math_floor (600 * 0.25))).
Proof.
  apply (setResolutionScale_rederives_size example_super lenient_delegate
           NormalPassClass example_pass example_heap (Obj 1) (Obj 2)
           {| options_resolutionScale := Some 0.25%float;
              options_renderTarget := None |} ∅ 800 600 0.5 0.25).
  - reflexivity.
  - reflexivity.
  - reflexivity.
  - reflexivity.
  - reflexivity.
  - exists example_target. reflexivity.
  - intros n. eexists. reflexivity.
  - reflexivity.
  - reflexivity.
  - intros l Hl. simpl in Hl. discriminate Hl.
Defined.

(** The spec's scenarios for the rule: 800 x 600 rescaled to 0.25 gives
    200 x 150, and 1920 x 1080 rescaled to 1.0 gives 1920 x 1080. *)
Example rescale_800_600_quarter :
  ('(p1, σ1) ← setSize NormalPassClass example_pass 800 600 example_heap;
   '(p2, σ2) ← setResolutionScale NormalPassClass p1 0.25 σ1;
   Return (target_size p2 σ2)) = Return (Some (200%float, 150%float)).
Proof. vm_compute. reflexivity. Qed.

Example rescale_1920_1080_full :
  ('(p0, σ0) ← new example_super lenient_delegate NormalPassClass
                 (Obj 1) (Obj 2) OptionsUndefined ∅;
   '(p1, σ1) ← setSize NormalPassClass p0 1920 1080 σ0;
   '(p2, σ2) ← setResolutionScale NormalPassClass p1 1 σ1;
   Return (target_size p2 σ2)) = Return (Some (1920%float, 1080%float)).
Proof. vm_compute. reflexivity. Qed.

(** C9: on a freshly constructed pass the base resolution is (0, 0), so
    [setResolutionScale(s)], for a finite [s], before any [setSize] resizes
    the render target to 1 x 1; a target supplied by the caller is that very
    object, and its dimensions are overwritten. *)
Theorem setResolutionScale_before_setSize
    (sup : string -> Completion PassBase) (acc : Ref -> Ref -> bool)
    (c : PassClass) (sc cam : Ref) (o : Options) (σ : Heap) (s : float) :
  base_constructs sup -> acc sc cam = true ->
  options_allocated o σ ->
  is_finite s = true ->
  exists p σ1 p' σ',
    new sup acc c sc cam (OptionsObject o) σ = Return (p, σ1)
    /\ resolution p = Vector2_new
    /\ setResolutionScale c p s σ1 = Return (p', σ')
    /\ target_size p' σ' = Some (1%float, 1%float)
    /\ (forall l t, options_renderTarget o = Some l -> σ !! l = Some t ->
          renderTarget p' = l
          /\ σ' !! l = Some {| width := 1; height := 1; texture := texture t |}).
Proof.
  intros Hsup Hacc Ho Hs.
  destruct (new_allocated sup acc c sc cam o σ Hsup Hacc Ho)
    as (p & σ1 & t & Hnew & Ht & _ & Hres & _ & Hext).
  pose proof (setResolutionScale_Return c p s σ1 t Ht) as Hset.
  rewrite Hres in Hset. cbn [x y Vector2_new] in Hset.
  rewrite !(scaled_zero s Hs) in Hset.
  eexists _, _, _, _. split; [exact Hnew|]. split; [exact Hres|].
  split; [exact Hset|]. split.
  - exact (target_size_insert (set_resolution _ (set_resolutionScale s p)) σ1 _).
  - intros l t0 Hl Ht0. destruct (Hext l t0 Hl Ht0) as (Hp & _ & ->).
    cbn. split; [exact Hp|]. rewrite Hp. apply lookup_insert_eq.
Qed.

Lemma setResolutionScale_before_setSize_witness :
  exists p σ1 p' σ',
    new example_super lenient_delegate DepthPassClass (Obj 1) (Obj 2)
      (OptionsObject {| options_resolutionScale := None;
                        options_renderTarget := Some 7%positive |})
      example_heap = Return (p, σ1)
    /\ resolution p = Vector2_new
    /\ setResolutionScale DepthPassClass p 2 σ1 = Return (p', σ')
    /\ target_size p' σ' = Some (1%float, 1%float)
    /\ (forall l t,
          options_renderTarget
            {| options_resolutionScale := None;
               options_renderTarget := Some 7%positive |} = Some l ->
          example_heap !! l = Some t ->
          renderTarget p' = l
          /\ σ' !! l = Some {| width := 1; height := 1; texture := texture t |}).
Proof.
  apply (setResolutionScale_before_setSize example_super lenient_delegate
           DepthPassClass (Obj 1) (Obj 2)
           {| options_resolutionScale := None;
              options_renderTarget := Some 7%positive |} example_heap 2).
  - intros n. eexists. reflexivity.
  - reflexivity.
  - intros l Hl. simpl in Hl. injection Hl as <-.
    exists example_target. reflexivity.
  - reflexivity.
Defined.

(** The caller's 512 x 256 target after such a call. *)
Example external_target_overwritten :
  ('(p, σ1) ← new example_super lenient_delegate DepthPassClass (Obj 1) (Obj 2)
                (OptionsObject {| options_resolutionScale := None;
                                  options_renderTarget := Some 7%positive |})
                example_heap;
   '(p', σ') ← setResolutionScale DepthPassClass p 2 σ1;
   Return (width <$> σ' !! 7%positive, height <$> σ' !! 7%positive))
  = Return (Some 1%float, Some 1%float).
Proof. vm_compute. reflexivity. Qed.

(** ** Rendering *)

(** C3: when [renderToScreen] is true, [render] hands the draw to the
    delegate with the null target for both buffers, so the display surface is
    drawn; the private render target, its contents in the renderer and its
    state on the heap are as before the call. *)
Theorem render_to_screen_spares_target (c : PassClass) (st : State)
    (i o : option loc) (d : option float) (s : option bool) :
  renderToScreen (this st) = true ->
  exists st',
    invoke c (call_render i o d s) st = Return st'
    /\ Return (gl st') =
         RenderPass_render (renderPass (this st)) (gl st) None None (heap st)
    /\ calls (gl st') =
         {| draw_pass := renderPass (this st);
            colorTarget := None; depthTarget := None |} :: calls (gl st)
    /\ screen (gl st') = Some (renderPass (this st))
    /\ offscreen (gl st') !! renderTarget (this st) =
         offscreen (gl st) !! renderTarget (this st)
    /\ offscreen (gl st') = offscreen (gl st)
    /\ heap st' !! renderTarget (this st) = heap st !! renderTarget (this st)
    /\ heap st' = heap st
    /\ this st' = this st.
Proof.
  intros Hscreen. cbn [invoke]. rewrite render_unfold, Hscreen. cbn.
  eexists. split; [reflexivity|]. cbn. repeat split.
Qed.

Lemma render_to_screen_spares_target_witness :
  exists st',
    invoke NormalPassClass (call_render None None None None)
      {| this := example_pass; heap := example_heap; gl := empty_renderer |}
      = Return st'
    /\ Return (gl st') =
         RenderPass_render (renderPass example_pass) empty_renderer None None
           example_heap
    /\ calls (gl st') =
         {| draw_pass := renderPass example_pass;
            colorTarget := None; depthTarget := None |} :: []
    /\ screen (gl st') = Some (renderPass example_pass)
    /\ offscreen (gl st') !! 7%positive = offscreen empty_renderer !! 7%positive
    /\ offscreen (gl st') = offscreen empty_renderer
    /\ heap st' !! 7%positive = example_heap !! 7%positive
    /\ heap st' = example_heap
    /\ this st' = example_pass.
Proof.
  apply (render_to_screen_spares_target NormalPassClass
           {| this := example_pass; heap := example_heap; gl := empty_renderer |}
           None None None None).
  reflexivity.
Defined.

(** C4: [render] does not depend on [inputBuffer], [outputBuffer], [delta] or
    [stencilTest]: whatever their values, the renderer receives the same draw
    instructions and ends in the same state (or the call fails in the same
    way), and the pass and the heap are the same. *)
Theorem render_ignores_buffers (c : PassClass) (st : State)
    (i1 o1 i2 o2 : option loc) (d1 d2 : option float) (s1 s2 : option bool) :
  invoke c (call_render i1 o1 d1 s1) st = invoke c (call_render i2 o2 d2 s2) st
  /\ render c (this st) (gl st) i1 o1 d1 s1 (heap st)
       = render c (this st) (gl st) i2 o2 d2 s2 (heap st)
  /\ (calls <$> render c (this st) (gl st) i1 o1 d1 s1 (heap st))
       = (calls <$> render c (this st) (gl st) i2 o2 d2 s2 (heap st)).
Proof.
  assert (H : render c (this st) (gl st) i1 o1 d1 s1 (heap st)
              = render c (this st) (gl st) i2 o2 d2 s2 (heap st))
    by (rewrite !render_unfold; reflexivity).
  split; [cbn; rewrite H; reflexivity|]. split; [exact H|].
  rewrite H. reflexivity.
Qed.

(** ** Construction and the swap flag *)

(** What a completed construction did. *)
Lemma new_inv sup acc c sc cam oa σ p σ' :
  new sup acc c sc cam oa σ = Return (p, σ') ->
  needsSwap p = false
  /\ resolution p = Vector2_new
  /\ acc sc cam = true
  /\ scene (renderPass p) = sc /\ camera (renderPass p) = cam
  /\ exists o,
       default_options oa = OptionsObject o
       /\ resolutionScale p = default 0.5%float (options_resolutionScale o)
       /\ match options_renderTarget o with
          | Some l => renderTarget p = l /\ σ' = σ
          | None =>
              σ !! renderTarget p = None
              /\ exists t, σ' = <[renderTarget p := t]> σ
                   /\ width t = 1%float /\ height t = 1%float
          end.
Proof.
  assert (Hfresh : σ !! fresh (dom σ) = None)
    by (apply not_elem_of_dom, is_fresh).
  destruct c; unfold new, NormalPass.constructor, DepthPass.constructor,
    RenderPass_new, WebGLRenderTarget_new;
    (match goal with |- context [sup ?n] => destruct (sup n) as [bs|e] end);
    cbn; try discriminate;
    destruct (acc sc cam); cbn; try discriminate;
    destruct (default_options oa) as [| |o] eqn:Hoa; cbn; try discriminate;
    destruct (options_renderTarget o) as [l|] eqn:Hl;
    rewrite ?alter_insert_eq; intros [= <- <-]; cbn;
    (split; [reflexivity|]); (split; [reflexivity|]); (split; [reflexivity|]);
    (split; [reflexivity|]); (split; [reflexivity|]);
    exists o; (split; [reflexivity|]);
    (split; [destruct (options_resolutionScale o); reflexivity|]);
    rewrite Hl; try (split; reflexivity);
    (split; [exact Hfresh|]); eexists; (split; [reflexivity|]);
    split; reflexivity.
Qed.

(** C5 as the spec states it does not hold: a constructor given the negative
    scale -1, with a scene and a camera and a delegate that would reject a
    missing one, completes, and keeps the scale. *)
Lemma constructor_accepts_nonpositive_scale :
  let o := {| options_resolutionScale := Some (-1)%float;
              options_renderTarget := None |} in
  let m := NormalPass.constructor example_super strict_delegate
             (Obj 1) (Obj 2) (OptionsObject o) ∅ in
  (-1 <=? 0)%float = true
  /\ ~ throws m
  /\ exists p σ, m = Return (p, σ) /\ resolutionScale p = (-1)%float.
Proof.
  cbv zeta. split; [reflexivity|]. split.
  - intros [e He]. vm_compute in He. discriminate He.
  - eexists _, _. split; reflexivity.
Qed.

(** C5, amended: the constructors never look at [resolutionScale].  Whether
    construction completes does not depend on the scale given (positive or
    not), and a completed pass stores that scale, 0.5 when none was given.
    Construction completes when the base constructor completes and the
    delegate's constructor accepts the scene and camera; it fails, at
    construction time, when the delegate's constructor rejects them or when
    the [options] argument is [null]. *)
Theorem constructor_does_not_validate_scale
    (sup : string -> Completion PassBase) (acc : Ref -> Ref -> bool)
    (c : PassClass) (sc cam : Ref) (s1 s2 : option float) (rt : option loc)
    (σ : Heap) :
  let o1 := {| options_resolutionScale := s1; options_renderTarget := rt |} in
  let o2 := {| options_resolutionScale := s2; options_renderTarget := rt |} in
  (throws (new sup acc c sc cam (OptionsObject o1) σ)
     <-> throws (new sup acc c sc cam (OptionsObject o2) σ))
  /\ (forall p σ',
        new sup acc c sc cam (OptionsObject o1) σ = Return (p, σ') ->
        resolutionScale p = default 0.5%float s1)
  /\ (base_constructs sup -> acc sc cam = true ->
        completes (new sup acc c sc cam (OptionsObject o1) σ))
  /\ (acc sc cam = false ->
        forall oa, throws (new sup acc c sc cam oa σ))
  /\ throws (new sup acc c sc cam OptionsNull σ).
Proof.
  cbv zeta. split; [|split; [|split; [|split]]].
  - destruct c; unfold new, NormalPass.constructor, DepthPass.constructor,
      RenderPass_new, WebGLRenderTarget_new;
      (match goal with |- context [sup ?n] => destruct (sup n) as [bs|e] end);
      cbn; try (split; intros _; eexists; reflexivity);
      destruct (acc sc cam); cbn; try (split; intros _; eexists; reflexivity);
      destruct rt; cbn; split; intros [e He]; discriminate He.
  - intros p σ' Hnew. apply new_inv in Hnew.
    destruct Hnew as (_ & _ & _ & _ & _ & o & [= <-] & Hscale & _).
    exact Hscale.
  - intros Hsup Hacc. destruct rt as [l|].
    + destruct (new_external sup acc c sc cam
                  {| options_resolutionScale := s1;
                     options_renderTarget := Some l |} σ l Hsup Hacc eq_refl)
        as (p & Hnew & _).
      eexists. exact Hnew.
    + destruct (new_internal sup acc c sc cam
                  {| options_resolutionScale := s1;
                     options_renderTarget := None |} σ Hsup Hacc eq_refl)
        as (p & t & Hnew & _).
      eexists. exact Hnew.
  - intros Hacc oa.
    destruct (new sup acc c sc cam oa σ) as [[p σ']|e] eqn:Hnew;
      [|eexists; reflexivity].
    apply new_inv in Hnew. destruct Hnew as (_ & _ & Hacc' & _). congruence.
  - destruct (new sup acc c sc cam OptionsNull σ) as [[p σ']|e] eqn:Hnew;
      [|eexists; reflexivity].
    apply new_inv in Hnew.
    destruct Hnew as (_ & _ & _ & _ & _ & o & Ho & _). discriminate Ho.
Qed.

Lemma constructor_does_not_validate_scale_witness :
  let o1 := {| options_resolutionScale := Some (-1)%float;
               options_renderTarget := Some 7%positive |} in
  let o2 := {| options_resolutionScale := Some 0.5%float;
               options_renderTarget := Some 7%positive |} in
  (throws (new example_super strict_delegate DepthPassClass (Obj 1) Undefined
             (OptionsObject o1) example_heap)
     <-> throws (new example_super strict_delegate DepthPassClass (Obj 1)
                   Undefined (OptionsObject o2) example_heap))
  /\ (forall p σ',
        new example_super strict_delegate DepthPassClass (Obj 1) Undefined
          (OptionsObject o1) example_heap = Return (p, σ') ->
        resolutionScale p = default 0.5%float (Some (-1)%float))
  /\ (base_constructs example_super ->
      strict_delegate (Obj 1) Undefined = true ->
        completes (new example_super strict_delegate DepthPassClass (Obj 1)
                     Undefined (OptionsObject o1) example_heap))
  /\ (strict_delegate (Obj 1) Undefined = false ->
        forall oa, throws (new example_super strict_delegate DepthPassClass
                             (Obj 1) Undefined oa example_heap))
  /\ throws (new example_super strict_delegate DepthPassClass (Obj 1)
               Undefined OptionsNull example_heap).
Proof.
  exact (constructor_does_not_validate_scale example_super strict_delegate
           DepthPassClass (Obj 1) Undefined (Some (-1)%float) (Some 0.5%float)
           (Some 7%positive) example_heap).
Defined.

Lemma invoke_needsSwap (c : PassClass) (call : Call) (st st' : State) :
  invoke c call st = Return st' ->
  needsSwap (this st') = needsSwap (this st).
Proof.
  destruct call as [w h|s|i o d s|flag]; cbn [invoke].
  - rewrite setSize_unfold. unfold WebGLRenderTarget_setSize.
    destruct (heap st !! renderTarget (this st)); cbn; [|discriminate].
    intros [= <-]. reflexivity.
  - rewrite setResolutionScale_unfold, setSize_unfold.
    unfold WebGLRenderTarget_setSize. cbn [renderTarget set_resolutionScale].
    destruct (heap st !! renderTarget (this st)); cbn; [|discriminate].
    intros [= <-]. reflexivity.
  - destruct (render c (this st) (gl st) i o d s (heap st)); cbn;
      [|discriminate]. intros [= <-]. reflexivity.
  - intros [= <-]. reflexivity.
Qed.

(** C6: in every state an instance of either class can reach (whatever the
    construction options, after any completed calls of [setSize],
    [setResolutionScale] and [render], and any assignments of
    [renderToScreen]) the field [needsSwap] is false. *)
Theorem needsSwap_always_false (sup : string -> Completion PassBase)
    (acc : Ref -> Ref -> bool) (c : PassClass) (st : State) :
  reachable sup acc c st -> needsSwap (this st) = false.
Proof.
  induction 1 as [sc cam oa σ rd p σ' Hnew | st call st' _ IH Hcall].
  - cbn [this]. apply new_inv in Hnew. apply Hnew.
  - rewrite (invoke_needsSwap c call st st' Hcall). exact IH.
Qed.

Lemma reachable_run (sup : string -> Completion PassBase)
    (acc : Ref -> Ref -> bool) (c : PassClass)
    (calls : list Call) (st st' : State) :
  reachable sup acc c st -> run c calls st = Return st' ->
  reachable sup acc c st'.
Proof.
  revert st. induction calls as [|call calls IH]; intros st Hst; cbn [run].
  - intros [= <-]. exact Hst.
  - destruct (invoke c call st) as [st1|e] eqn:Hcall; cbn; [|discriminate].
    apply IH. exact (reachable_invoke sup acc c st call st1 Hst Hcall).
Qed.

Lemma needsSwap_always_false_witness :
  exists p σ st,
    new example_super lenient_delegate DepthPassClass (Obj 1) (Obj 2)
      OptionsUndefined ∅ = Return (p, σ)
    /\ run DepthPassClass
         [call_setSize 800 600; assign_renderToScreen true;
          call_setResolutionScale 2; call_render None None None None;
          assign_renderToScreen false; call_render None None None None]
         {| this := p; heap := σ; gl := empty_renderer |} = Return st
    /\ needsSwap (this st) = false.
Proof.
  eexists _, _, _. split; [vm_compute; reflexivity|].
  split; [vm_compute; reflexivity|].
  apply (needsSwap_always_false example_super lenient_delegate DepthPassClass).
  eapply (reachable_run example_super lenient_delegate DepthPassClass
            [call_setSize 800 600; assign_renderToScreen true;
             call_setResolutionScale 2; call_render None None None None;
             assign_renderToScreen false; call_render None None None None]).
  - eapply (reachable_new example_super lenient_delegate DepthPassClass
              (Obj 1) (Obj 2) OptionsUndefined ∅ empty_renderer).
    vm_compute. reflexivity.
  - vm_compute. reflexivity.
Defined.

(** Every channel of a colour made from a hex code is at most 255/255. *)
Lemma channel_bounds (hex shift : Z) : 0 <= channel hex shift <= 255.
Proof.
  assert (Hmod : channel hex shift = Z.modulo (Z.shiftr hex shift) 256)
    by (unfold channel; apply (Z.land_ones (Z.shiftr hex shift) 8); lia).
  pose proof (Z.mod_pos_bound (Z.shiftr hex shift) 256 eq_refl) as Hb.
  rewrite Hmod. lia.
Qed.

(** C7: a depth pass constructed with default options (the argument left out,
    or [{}]) has scale 0.5; after [setSize(800, 600)] its own render target is
    400 x 300; its delegate packs depth as RGBA and clears to white with
    alpha 1, the colour whose four channels are each the greatest a channel
    can hold. *)
Theorem depth_pass_defaults (sup : string -> Completion PassBase)
    (acc : Ref -> Ref -> bool) (sc cam : Ref) (oa : OptionsArg) (σ : Heap) :
  base_constructs sup -> acc sc cam = true ->
  default_options oa = OptionsObject no_options ->
  exists p σ1 p' σ',
    DepthPass.constructor sup acc sc cam oa σ = Return (p, σ1)
    /\ DepthPass.getResolutionScale p = 0.5%float
    /\ DepthPass.setSize p 800 600 σ1 = Return (p', σ')
    /\ target_size p' σ' = Some (400%float, 300%float)
    /\ overrideMaterial (renderPass p) = MeshDepthMaterial RGBADepthPacking true true
    /\ clearColor (renderPass p) = Color_new 0xffffff
    /\ clearColor (renderPass p) = {| r := 255 # 255; g := 255 # 255; b := 255 # 255 |}
    /\ clearAlpha (renderPass p) = 1%float
    /\ (forall hex : Z,
          (r (Color_new hex) <= r (clearColor (renderPass p)))%Q
          /\ (g (Color_new hex) <= g (clearColor (renderPass p)))%Q
          /\ (b (Color_new hex) <= b (clearColor (renderPass p)))%Q)
    /\ (forall alpha : float,
          (alpha <=? 1)%float = true ->
          (alpha <=? clearAlpha (renderPass p))%float = true).
Proof.
  intros Hsup Hacc Hoa.
  assert (Hoa' : DepthPass.constructor sup acc sc cam oa σ
                 = DepthPass.constructor sup acc sc cam (OptionsObject no_options) σ).
  { unfold DepthPass.constructor. rewrite Hoa. reflexivity. }
  rewrite Hoa'.
  destruct (new_internal sup acc DepthPassClass sc cam no_options σ Hsup Hacc eq_refl)
    as (p & t & Hnew & _ & _ & _ & _ & _ & _ & _ & _ & _ & _ & Hscale & _).
  assert (Hrp : renderPass p =
                {| scene := sc; camera := cam;
                   overrideMaterial := MeshDepthMaterial RGBADepthPacking true true;
                   clearColor := Color_new 0xffffff;
                   clearAlpha := 1 |}).
  { cbn in Hnew. unfold DepthPass.constructor, RenderPass_new in Hnew.
    destruct (Hsup "DepthPass"%string) as [bs Hbs]. rewrite Hbs, Hacc in Hnew.
    cbn in Hnew. injection Hnew as <- _. reflexivity. }
  assert (Ht : <[renderTarget p := t]> σ !! renderTarget p = Some t)
    by apply lookup_insert_eq.
  pose proof (setSize_Return DepthPassClass p 800 600 _ t Ht) as Hsize.
  rewrite Hscale in Hsize. cbn [default options_resolutionScale no_options] in Hsize.
  change (scaled 800 0.5) with 400%float in Hsize.
  change (scaled 600 0.5) with 300%float in Hsize.
  eexists _, _, _, _. split; [exact Hnew|]. split; [exact Hscale|].
  split; [exact Hsize|]. rewrite Hrp. cbn [renderPass overrideMaterial
    clearColor clearAlpha].
  split; [exact (target_size_insert (set_resolution _ p) _ _)|].
  repeat (split; [reflexivity|]). split.
  - intros hex.
    change (Color_new 0xffffff)
      with {| r := 255 # 255; g := 255 # 255; b := 255 # 255 |}.
    unfold Color_new, Qle. cbn [r g b Qnum Qden].
    pose proof (channel_bounds hex 16). pose proof (channel_bounds hex 8).
    pose proof (channel_bounds hex 0). lia.
  - intros alpha Ha. exact Ha.
Qed.

Lemma depth_pass_defaults_witness :
  exists p σ1 p' σ',
    DepthPass.constructor example_super strict_delegate (Obj 1) (Obj 2)
      OptionsUndefined example_heap = Return (p, σ1)
    /\ DepthPass.getResolutionScale p = 0.5%float
    /\ DepthPass.setSize p 800 600 σ1 = Return (p', σ')
    /\ target_size p' σ' = Some (400%float, 300%float)
    /\ overrideMaterial (renderPass p) = MeshDepthMaterial RGBADepthPacking true true
    /\ clearColor (renderPass p) = Color_new 0xffffff
    /\ clearColor (renderPass p) = {| r := 255 # 255; g := 255 # 255; b := 255 # 255 |}
    /\ clearAlpha (renderPass p) = 1%float
    /\ (forall hex : Z,
          (r (Color_new hex) <= r (clearColor (renderPass p)))%Q
          /\ (g (Color_new hex) <= g (clearColor (renderPass p)))%Q
          /\ (b (Color_new hex) <= b (clearColor (renderPass p)))%Q)
    /\ (forall alpha : float,
          (alpha <=? 1)%float = true ->
          (alpha <=? clearAlpha (renderPass p))%float = true).
Proof.
  apply (depth_pass_defaults example_super strict_delegate (Obj 1) (Obj 2)
           OptionsUndefined example_heap).
  - intros n. eexists. reflexivity.
  - reflexivity.
  - reflexivity.
Defined.

(** C10: a render target supplied by the caller is adopted as it is: the
    constructor returns the heap it was given, so every field of every
    existing target is unchanged, and the pass refers to the caller's object.
    The same options without a target make the constructor create one, and
    only that new object receives the linear filters, the texture name and
    the mipmap setting (and, for the normal pass, the RGB format). *)
Theorem constructor_adopts_external_target
    (sup : string -> Completion PassBase) (acc : Ref -> Ref -> bool)
    (c : PassClass) (sc cam : Ref) (o : Options) (σ : Heap) (l : loc) :
  base_constructs sup -> acc sc cam = true ->
  options_renderTarget o = Some l ->
  (exists p,
      new sup acc c sc cam (OptionsObject o) σ = Return (p, σ)
      /\ renderTarget p = l)
  /\ (exists p t,
         new sup acc c sc cam
           (OptionsObject
              {| options_resolutionScale := options_resolutionScale o;
                 options_renderTarget := None |}) σ
           = Return (p, <[renderTarget p := t]> σ)
         /\ σ !! renderTarget p = None
         /\ minFilter (texture t) = Some LinearFilter
         /\ magFilter (texture t) = Some LinearFilter
         /\ generateMipmaps (texture t) = Some false
         /\ texture_name (texture t) =
              match c with
              | NormalPassClass => "NormalPass.Target"%string
              | DepthPassClass => "DepthPass.Target"%string
              end
         /\ format (texture t) =
              match c with
              | NormalPassClass => Some RGBFormat
              | DepthPassClass => None
              end).
Proof.
  intros Hsup Hacc Hl. split.
  - destruct (new_external sup acc c sc cam o σ l Hsup Hacc Hl)
      as (p & Hnew & Hp & _).
    exists p. auto.
  - destruct (new_internal sup acc c sc cam
                {| options_resolutionScale := options_resolutionScale o;
                   options_renderTarget := None |} σ Hsup Hacc eq_refl)
      as (p & t & Hnew & Hfresh & _ & _ & Hmin & Hmag & Hmip & Hname & Hfmt & _).
    exists p, t. auto 10.
Qed.

Lemma constructor_adopts_external_target_witness :
  (exists p,
      new example_super lenient_delegate NormalPassClass (Obj 1) (Obj 2)
        (OptionsObject {| options_resolutionScale := Some 1%float;
                          options_renderTarget := Some 7%positive |})
        example_heap = Return (p, example_heap)
      /\ renderTarget p = 7%positive)
  /\ (exists p t,
         new example_super lenient_delegate NormalPassClass (Obj 1) (Obj 2)
           (OptionsObject {| options_resolutionScale := Some 1%float;
                             options_renderTarget := None |}) example_heap
           = Return (p, <[renderTarget p := t]> example_heap)
         /\ example_heap !! renderTarget p = None
         /\ minFilter (texture t) = Some LinearFilter
         /\ magFilter (texture t) = Some LinearFilter
         /\ generateMipmaps (texture t) = Some false
         /\ texture_name (texture t) = "NormalPass.Target"%string
         /\ format (texture t) = Some RGBFormat).
Proof.
  apply (constructor_adopts_external_target example_super lenient_delegate
           NormalPassClass (Obj 1) (Obj 2)
           {| options_resolutionScale := Some 1%float;
              options_renderTarget := Some 7%positive |} example_heap 7%positive).
  - intros n. eexists. reflexivity.
  - reflexivity.
  - reflexivity.
Defined.

(** The caller's target after construction, field for field. *)
Example external_target_untouched :
  ('(p, σ) ← new example_super lenient_delegate NormalPassClass (Obj 1) (Obj 2)
               (OptionsObject {| options_resolutionScale := Some 1%float;
                                 options_renderTarget := Some 7%positive |})
               example_heap;
   Return (σ !! renderTarget p)) = Return (Some example_target).
Proof. vm_compute. reflexivity. Qed.

(** * Further properties of the methods *)

(** ** What a completed call did *)

Lemma setSize_inv c p w h σ p' σ' :
  setSize c p w h σ = Return (p', σ') ->
  exists t,
    σ !! renderTarget p = Some t
    /\ p' = set_resolution {| x := w; y := h |} p
    /\ σ' = <[renderTarget p :=
               {| width := scaled w (resolutionScale p);
                  height := scaled h (resolutionScale p);
                  texture := texture t |}]> σ.
Proof.
  destruct (σ !! renderTarget p) as [t|] eqn:Ht.
  - rewrite (setSize_Return c p w h σ t Ht). intros [= <- <-].
    exists t. repeat split.
  - destruct (setSize_Throw c p w h σ Ht) as [e He]. rewrite He. discriminate.
Qed.

Lemma setResolutionScale_inv c p s σ p' σ' :
  setResolutionScale c p s σ = Return (p', σ') ->
  exists t,
    σ !! renderTarget p = Some t
    /\ p' = set_resolution {| x := x (resolution p); y := y (resolution p) |}
              (set_resolutionScale s p)
    /\ σ' = <[renderTarget p :=
               {| width := scaled (x (resolution p)) s;
                  height := scaled (y (resolution p)) s;
                  texture := texture t |}]> σ.
Proof.
  rewrite setResolutionScale_unfold. intros H.
  apply setSize_inv in H. exact H.
Qed.

Lemma invoke_inv c call st st' :
  invoke c call st = Return st' ->
  match call with
  | call_setSize w h =>
      setSize c (this st) w h (heap st) = Return (this st', heap st')
      /\ gl st' = gl st
  | call_setResolutionScale s =>
      setResolutionScale c (this st) s (heap st) = Return (this st', heap st')
      /\ gl st' = gl st
  | call_render i o d s =>
      render c (this st) (gl st) i o d s (heap st) = Return (gl st')
      /\ this st' = this st /\ heap st' = heap st
  | assign_renderToScreen flag =>
      st' = {| this := set_renderToScreen flag (this st); heap := heap st;
               gl := gl st |}
  end.
Proof.
  destruct call as [w h|s|i o d s|flag]; cbn [invoke].
  - destruct (setSize c (this st) w h (heap st)) as [[p σ]|e]; cbn;
      [|discriminate]. intros [= <-]. split; reflexivity.
  - destruct (setResolutionScale c (this st) s (heap st)) as [[p σ]|e]; cbn;
      [|discriminate]. intros [= <-]. split; reflexivity.
  - destruct (render c (this st) (gl st) i o d s (heap st)) as [rd|e]; cbn;
      [|discriminate]. intros [= <-]. repeat split.
  - intros [= <-]. reflexivity.
Qed.

(** ** What the calls leave alone *)

Lemma invoke_frame c call st st' :
  invoke c call st = Return st' ->
  renderTarget (this st') = renderTarget (this st)
  /\ renderPass (this st') = renderPass (this st)
  /\ name (this st') = name (this st)
  /\ dom (heap st') = dom (heap st)
  /\ (forall l, l <> renderTarget (this st) -> heap st' !! l = heap st !! l)
  /\ texture <$> heap st' !! renderTarget (this st)
       = texture <$> heap st !! renderTarget (this st).
Proof.
  intros H. apply invoke_inv in H.
  destruct call as [w h|s|i o d s|flag].
  - destruct H as [H _]. apply setSize_inv in H.
    destruct H as (t & Ht & -> & ->). cbn [set_resolution renderTarget renderPass name].
    repeat split.
    + apply dom_insert_lookup_L. exists t. exact Ht.
    + intros l Hl. apply lookup_insert_ne. congruence.
    + rewrite lookup_insert_eq, Ht. reflexivity.
  - destruct H as [H _]. apply setResolutionScale_inv in H.
    destruct H as (t & Ht & -> & ->).
    cbn [set_resolution set_resolutionScale renderTarget renderPass name].
    repeat split.
    + apply dom_insert_lookup_L. exists t. exact Ht.
    + intros l Hl. apply lookup_insert_ne. congruence.
    + rewrite lookup_insert_eq, Ht. reflexivity.
  - destruct H as (_ & -> & ->). repeat split.
  - subst st'. cbn. repeat split.
Qed.

(** X2: whatever calls are made on a pass, it keeps its render target
    reference, its delegate and its name; the heap holds the same objects;
    every other render target is exactly as it was; and its own target keeps
    its texture configuration (name, filters, format, mipmap flag): only the
    two dimensions ever change. *)
Theorem calls_frame (c : PassClass) (calls : list Call) (st st' : State) :
  run c calls st = Return st' ->
  renderTarget (this st') = renderTarget (this st)
  /\ renderPass (this st') = renderPass (this st)
  /\ name (this st') = name (this st)
  /\ dom (heap st') = dom (heap st)
  /\ (forall l, l <> renderTarget (this st) -> heap st' !! l = heap st !! l)
  /\ texture <$> heap st' !! renderTarget (this st)
       = texture <$> heap st !! renderTarget (this st).
Proof.
  revert st. induction calls as [|call calls IH]; intros st; cbn [run].
  - intros [= <-]. repeat split.
  - destruct (invoke c call st) as [st1|e] eqn:Hcall; cbn; [|discriminate].
    intros Hrun.
    destruct (invoke_frame c call st st1 Hcall)
      as (Ht1 & Hrp1 & Hn1 & Hd1 & Ho1 & Htx1).
    destruct (IH st1 Hrun) as (Ht & Hrp & Hn & Hd & Ho & Htx).
    rewrite Ht1 in Ht, Ho, Htx.
    split; [congruence|]. split; [congruence|]. split; [congruence|].
    split; [congruence|]. split.
    + intros l Hl. rewrite (Ho l Hl). apply Ho1. exact Hl.
    + congruence.
Qed.

Lemma calls_frame_witness :
  let st := {| this := example_pass;
               heap := <[9%positive := example_target]> example_heap;
               gl := empty_renderer |} in
  exists st',
    run DepthPassClass
      [call_setSize 800 600; call_setResolutionScale 2;
       call_render None None None None] st = Return st'
    /\ renderTarget (this st') = renderTarget (this st)
    /\ renderPass (this st') = renderPass (this st)
    /\ name (this st') = name (this st)
    /\ dom (heap st') = dom (heap st)
    /\ (forall l, l <> renderTarget (this st) -> heap st' !! l = heap st !! l)
    /\ texture <$> heap st' !! renderTarget (this st)
         = texture <$> heap st !! renderTarget (this st).
Proof.
  cbv zeta. eexists. split; [vm_compute; reflexivity|].
  apply (calls_frame DepthPassClass
           [call_setSize 800 600; call_setResolutionScale 2;
            call_render None None None None]
           {| this := example_pass;
              heap := <[9%positive := example_target]> example_heap;
              gl := empty_renderer |}).
  vm_compute. reflexivity.
Defined.

(** ** The stored scale and resolution *)

Lemma invoke_stored c call st st' :
  invoke c call st = Return st' ->
  resolutionScale (this st') =
    match call with
    | call_setResolutionScale s => s
    | _ => resolutionScale (this st)
    end
  /\ (x (resolution (this st')), y (resolution (this st'))) =
       match call with
       | call_setSize w h => (w, h)
       | _ => (x (resolution (this st)), y (resolution (this st)))
       end.
Proof.
  intros H. apply invoke_inv in H.
  destruct call as [w h|s|i o d s|flag].
  - destruct H as [H _]. apply setSize_inv in H.
    destruct H as (t & _ & -> & _). split; reflexivity.
  - destruct H as [H _]. apply setResolutionScale_inv in H.
    destruct H as (t & _ & -> & _). split; reflexivity.
  - destruct H as (_ & -> & _). split; reflexivity.
  - subst st'. split; reflexivity.
Qed.

(** X3: after any sequence of calls, [getResolutionScale] returns the
    argument of the latest [setResolutionScale] (the scale held before, if
    there was none), and the stored base resolution is the argument pair of
    the latest [setSize] (the one held before, if there was none): [setSize]
    and [render] never change the scale, [setResolutionScale] and [render]
    never change the base resolution. *)
Theorem getters_reflect_latest_setters (c : PassClass) (calls : list Call)
    (st st' : State) :
  run c calls st = Return st' ->
  getResolutionScale c (this st')
    = last_scale calls (getResolutionScale c (this st))
  /\ (x (resolution (this st')), y (resolution (this st')))
       = last_size calls (x (resolution (this st)), y (resolution (this st))).
Proof.
  rewrite !getResolutionScale_unfold. unfold last_scale, last_size.
  revert st. induction calls as [|call calls IH]; intros st; cbn [run foldl].
  - intros [= <-]. split; reflexivity.
  - destruct (invoke c call st) as [st1|e] eqn:Hcall; cbn; [|discriminate].
    intros Hrun. destruct (IH st1 Hrun) as [Hs Hwh].
    destruct (invoke_stored c call st st1 Hcall) as [Hs1 Hwh1].
    rewrite Hs, Hwh, Hs1, Hwh1. destruct call; split; reflexivity.
Qed.

Lemma getters_reflect_latest_setters_witness :
  let st := {| this := example_pass; heap := example_heap;
               gl := empty_renderer |} in
  let calls := [call_setResolutionScale 2; call_setSize 800 600;
                call_render None None None None;
                call_setResolutionScale 0.25; call_setSize 640 480;
                assign_renderToScreen false] in
  exists st',
    run NormalPassClass calls st = Return st'
    /\ getResolutionScale NormalPassClass (this st')
         = last_scale calls (getResolutionScale NormalPassClass (this st))
    /\ (x (resolution (this st')), y (resolution (this st')))
         = last_size calls (x (resolution (this st)), y (resolution (this st))).
Proof.
  cbv zeta. eexists. split; [vm_compute; reflexivity|].
  apply (getters_reflect_latest_setters NormalPassClass
           [call_setResolutionScale 2; call_setSize 800 600;
            call_render None None None None;
            call_setResolutionScale 0.25; call_setSize 640 480;
            assign_renderToScreen false]
           {| this := example_pass; heap := example_heap;
              gl := empty_renderer |}).
  vm_compute. reflexivity.
Defined.

(** ** The sizing invariant *)

Lemma invoke_sized c call st st' :
  invoke c call st = Return st' ->
  is_resize call = true \/ sized (this st) (heap st) ->
  sized (this st') (heap st').
Proof.
  intros H Hpre. apply invoke_inv in H.
  destruct call as [w h|s|i o d s|flag].
  - destruct H as [H _]. apply setSize_inv in H.
    destruct H as (t & _ & -> & ->).
    exact (target_size_insert (set_resolution _ (this st)) (heap st) _).
  - destruct H as [H _]. apply setResolutionScale_inv in H.
    destruct H as (t & _ & -> & ->).
    exact (target_size_insert
             (set_resolution _ (set_resolutionScale s (this st))) (heap st) _).
  - destruct Hpre as [Hr|Hs]; [discriminate Hr|].
    destruct H as (_ & -> & ->). exact Hs.
  - destruct Hpre as [Hr|Hs]; [discriminate Hr|]. subst st'. exact Hs.
Qed.

Lemma run_sized c calls st st' :
  run c calls st = Return st' ->
  sized (this st) (heap st) ->
  sized (this st') (heap st').
Proof.
  revert st. induction calls as [|call calls IH]; intros st; cbn [run].
  - intros [= <-] Hs. exact Hs.
  - destruct (invoke c call st) as [st1|e] eqn:Hcall; cbn; [|discriminate].
    intros Hrun Hs. apply (IH st1 Hrun).
    apply (invoke_sized c call st st1 Hcall). right. exact Hs.
Qed.

(** X4: a pass that creates its own render target (constructed with a finite
    scale, or none) keeps, from construction on and through any completed
    calls, the invariant that the target measures
    [max(1, floor(resolution * scale))] on each axis, in JavaScript's
    arithmetic, for the resolution and scale currently stored; at
    construction that is 1 x 1. *)
Theorem own_target_always_sized (sup : string -> Completion PassBase)
    (acc : Ref -> Ref -> bool) (c : PassClass)
    (sc cam : Ref) (o : Options) (σ : Heap) :
  base_constructs sup -> acc sc cam = true ->
  options_renderTarget o = None ->
  finite_scale o ->
  exists p σ',
    new sup acc c sc cam (OptionsObject o) σ = Return (p, σ')
    /\ target_size p σ' = Some (1%float, 1%float)
    /\ sized p σ'
    /\ forall rd calls st',
         run c calls {| this := p; heap := σ'; gl := rd |} = Return st' ->
         sized (this st') (heap st').
Proof.
  intros Hsup Hacc Hrt Hfin.
  destruct (new_internal sup acc c sc cam o σ Hsup Hacc Hrt)
    as (p & t & Hnew & _ & Hw & Hh & _ & _ & _ & _ & _ & _ & Hres & Hscale & _).
  assert (Hsize : target_size p (<[renderTarget p := t]> σ)
                  = Some (1%float, 1%float))
    by (rewrite target_size_insert, Hw, Hh; reflexivity).
  assert (Hs : is_finite (resolutionScale p) = true).
  { rewrite Hscale. destruct (options_resolutionScale o) as [s|] eqn:Hso.
    - apply (Hfin s). exact Hso.
    - reflexivity. }
  assert (Hsized : sized p (<[renderTarget p := t]> σ)).
  { unfold sized. rewrite Hsize, Hres. cbn [x y Vector2_new].
    rewrite (scaled_zero _ Hs). reflexivity. }
  exists p, (<[renderTarget p := t]> σ).
  split; [exact Hnew|]. split; [exact Hsize|]. split; [exact Hsized|].
  intros rd calls st' Hrun. exact (run_sized c calls _ st' Hrun Hsized).
Qed.

Lemma own_target_always_sized_witness :
  let o := {| options_resolutionScale := Some seven_tenths;
              options_renderTarget := None |} in
  exists p σ',
    new example_super lenient_delegate NormalPassClass (Obj 1) (Obj 2)
      (OptionsObject o) example_heap = Return (p, σ')
    /\ target_size p σ' = Some (1%float, 1%float)
    /\ sized p σ'
    /\ forall rd calls st',
         run NormalPassClass calls {| this := p; heap := σ'; gl := rd |}
           = Return st' ->
         sized (this st') (heap st').
Proof.
  apply (own_target_always_sized example_super lenient_delegate NormalPassClass
           (Obj 1) (Obj 2)
           {| options_resolutionScale := Some seven_tenths;
              options_renderTarget := None |} example_heap).
  - intros n. eexists. reflexivity.
  - reflexivity.
  - reflexivity.
  - intros s Hs. simpl in Hs. injection Hs as <-. reflexivity.
Defined.

(** X5: on any pass, also one that was given a target of arbitrary size, a
    completed [setSize] or [setResolutionScale] establishes the sizing
    invariant, and every later call keeps it: the target always measures what
    the stored resolution and scale give in JavaScript's arithmetic. *)
Theorem resize_establishes_sizing (c : PassClass) (call : Call)
    (calls : list Call) (st st1 st2 : State) :
  is_resize call = true ->
  invoke c call st = Return st1 ->
  run c calls st1 = Return st2 ->
  sized (this st1) (heap st1) /\ sized (this st2) (heap st2).
Proof.
  intros Hr Hcall Hrun.
  assert (H1 : sized (this st1) (heap st1))
    by (apply (invoke_sized c call st st1 Hcall); left; exact Hr).
  split; [exact H1|]. exact (run_sized c calls st1 st2 Hrun H1).
Qed.

Lemma resize_establishes_sizing_witness :
  let st := {| this := example_pass; heap := example_heap;
               gl := empty_renderer |} in
  exists st1 st2,
    invoke NormalPassClass (call_setResolutionScale seven_tenths) st = Return st1
    /\ run NormalPassClass
         [call_render None None None None; call_setSize 1920 1080;
          assign_renderToScreen false; call_render None None None None] st1
         = Return st2
    /\ sized (this st1) (heap st1) /\ sized (this st2) (heap st2).
Proof.
  cbv zeta. eexists _, _. split; [vm_compute; reflexivity|].
  split; [vm_compute; reflexivity|].
  apply (resize_establishes_sizing NormalPassClass
           (call_setResolutionScale seven_tenths)
           [call_render None None None None; call_setSize 1920 1080;
            assign_renderToScreen false; call_render None None None None]
           {| this := example_pass; heap := example_heap;
              gl := empty_renderer |}).
  - reflexivity.
  - vm_compute. reflexivity.
  - vm_compute. reflexivity.
Defined.

(** The invariant at scale 0.7 and 1920 x 1080: the target is 1344 x 756. *)
Example sized_at_seven_tenths :
  ('(st1) ← invoke NormalPassClass (call_setResolutionScale seven_tenths)
              {| this := example_pass; heap := example_heap;
                 gl := empty_renderer |};
   st2 ← invoke NormalPassClass (call_setSize 1920 1080) st1;
   Return (target_size (this st2) (heap st2)))
  = Return (Some (1344%float, 756%float)).
Proof. vm_compute. reflexivity. Qed.

Lemma resize_dimensions_bounds (c : PassClass) (call : Call) (st st' : State) :
  is_resize call = true ->
  invoke c call st = Return st' ->
  exists wd ht,
    target_size (this st') (heap st') = Some (wd, ht)
    /\ (wd <? 1)%float = false /\ (ht <? 1)%float = false
    /\ (is_nan wd = true \/ (1 <=? wd)%float = true)
    /\ (is_nan ht = true \/ (1 <=? ht)%float = true).
Proof.
  intros Hr Hcall.
  pose proof (invoke_sized c call st st' Hcall (or_introl Hr)) as Hs.
  eexists _, _. split; [exact Hs|]. unfold scaled.
  repeat split; apply Math_max_1_bounds.
Qed.



(** ** How the two resizing methods compose *)

Lemma setSize_then c p w h σ t (k : PassObject * Heap -> Completion (PassObject * Heap)) :
  σ !! renderTarget p = Some t ->
  (setSize c p w h σ ≫= k) =
  k (set_resolution {| x := w; y := h |} p,
     <[renderTarget p :=
         {| width := scaled w (resolutionScale p);
            height := scaled h (resolutionScale p);
            texture := texture t |}]> σ).
Proof. intros Ht. rewrite (setSize_Return c p w h σ t Ht). reflexivity. Qed.

Lemma setResolutionScale_then c p s σ t
    (k : PassObject * Heap -> Completion (PassObject * Heap)) :
  σ !! renderTarget p = Some t ->
  (setResolutionScale c p s σ ≫= k) =
  k (set_resolution {| x := x (resolution p); y := y (resolution p) |}
       (set_resolutionScale s p),
     <[renderTarget p :=
         {| width := scaled (x (resolution p)) s;
            height := scaled (y (resolution p)) s;
            texture := texture t |}]> σ).
Proof.
  intros Ht. rewrite (setResolutionScale_Return c p s σ t Ht). reflexivity.
Qed.

(** X11: [setSize(w, h)] and [setResolutionScale(s)] commute: made in either
    order on the same pass they complete in the same state (same stored
    resolution and scale, same render target dimensions). *)
Theorem resize_calls_commute (c : PassClass) (p : PassObject) (σ : Heap)
    (w h s : float) :
  target_allocated p σ ->
  exists p' σ',
    ('(p1, σ1) ← setSize c p w h σ; setResolutionScale c p1 s σ1)
      = Return (p', σ')
    /\ ('(p1, σ1) ← setResolutionScale c p s σ; setSize c p1 w h σ1)
         = Return (p', σ').
Proof.
  intros [t Ht]. eexists _, _. split.
  - rewrite (setSize_then c p w h σ t _ Ht).
    rewrite (setResolutionScale_Return c (set_resolution _ p) s _ _
               (lookup_insert_eq σ (renderTarget p) _)).
    cbn [renderTarget set_resolution set_resolutionScale resolution
         resolutionScale x y texture].
    rewrite insert_insert_eq. reflexivity.
  - rewrite (setResolutionScale_then c p s σ t _ Ht).
    rewrite (setSize_Return c (set_resolution _ (set_resolutionScale s p)) w h _ _
               (lookup_insert_eq σ (renderTarget p) _)).
    cbn [renderTarget set_resolution set_resolutionScale resolution
         resolutionScale x y texture].
    rewrite insert_insert_eq. reflexivity.
Qed.

Lemma resize_calls_commute_witness :
  exists p' σ',
    ('(p1, σ1) ← setSize NormalPassClass example_pass 800 600 example_heap;
     setResolutionScale NormalPassClass p1 0.25 σ1) = Return (p', σ')
    /\ ('(p1, σ1) ← setResolutionScale NormalPassClass example_pass 0.25
                      example_heap;
        setSize NormalPassClass p1 800 600 σ1) = Return (p', σ').
Proof.
  apply (resize_calls_commute NormalPassClass example_pass example_heap
           800 600 0.25).
  exists example_target. reflexivity.
Defined.

(** X12: a later resize overrides an earlier one of the same kind: two
    [setSize] calls leave the state of the second alone, and so do two
    [setResolutionScale] calls; nothing of the first call survives. *)
Theorem later_resize_overrides (c : PassClass) (p : PassObject) (σ : Heap)
    (w1 h1 w2 h2 s1 s2 : float) :
  target_allocated p σ ->
  ('(p1, σ1) ← setSize c p w1 h1 σ; setSize c p1 w2 h2 σ1)
    = setSize c p w2 h2 σ
  /\ ('(p1, σ1) ← setResolutionScale c p s1 σ; setResolutionScale c p1 s2 σ1)
       = setResolutionScale c p s2 σ.
Proof.
  intros [t Ht]. split.
  - rewrite (setSize_then c p w1 h1 σ t _ Ht).
    rewrite (setSize_Return c (set_resolution _ p) w2 h2 _ _
               (lookup_insert_eq σ (renderTarget p) _)).
    rewrite (setSize_Return c p w2 h2 σ t Ht).
    cbn [renderTarget set_resolution resolutionScale texture].
    rewrite insert_insert_eq. reflexivity.
  - rewrite (setResolutionScale_then c p s1 σ t _ Ht).
    rewrite (setResolutionScale_Return c
               (set_resolution _ (set_resolutionScale s1 p)) s2 _ _
               (lookup_insert_eq σ (renderTarget p) _)).
    rewrite (setResolutionScale_Return c p s2 σ t Ht).
    cbn [renderTarget set_resolution set_resolutionScale resolution x y texture].
    rewrite insert_insert_eq. reflexivity.
Qed.

Lemma later_resize_overrides_witness :
  ('(p1, σ1) ← setSize DepthPassClass example_pass 800 600 example_heap;
   setSize DepthPassClass p1 1024 768 σ1)
    = setSize DepthPassClass example_pass 1024 768 example_heap
  /\ ('(p1, σ1) ← setResolutionScale DepthPassClass example_pass 2 example_heap;
      setResolutionScale DepthPassClass p1 0.75 σ1)
       = setResolutionScale DepthPassClass example_pass 0.75 example_heap.
Proof.
  apply (later_resize_overrides DepthPassClass example_pass example_heap
           800 600 1024 768 2 0.75).
  exists example_target. reflexivity.
Defined.

(** ** Passes and the targets they share or own *)

(** X13: resizing one pass changes the render target of another pass exactly
    when the two hold the same target object: a pass sharing the target finds
    it at the new dimensions, those that the resized pass's scale gives
    (whatever its own scale and resolution), and a pass with a different
    target keeps its size. *)
Theorem resize_reaches_exactly_the_sharers (c : PassClass)
    (p p' q1 q2 : PassObject) (σ σ' : Heap) (w h : float) :
  renderTarget q1 = renderTarget p ->
  renderTarget q2 <> renderTarget p ->
  setSize c p w h σ = Return (p', σ') ->
  target_size p' σ' =
    Some (Math_max 1 (Math_floor (w * resolutionScale p)),
          Math_max 1 (Math_floor (h * resolutionScale p)))
  /\ target_size q1 σ' =
       Some (Math_max 1 (Math_floor (w * resolutionScale p)),
             Math_max 1 (Math_floor (h * resolutionScale p)))
  /\ target_size q2 σ' = target_size q2 σ.
Proof.
  intros Hq1 Hq2 H. apply setSize_inv in H. destruct H as (t & _ & -> & ->).
  unfold target_size. cbn [renderTarget set_resolution].
  rewrite Hq1, lookup_insert_eq, (lookup_insert_ne _ _ _ _ (not_eq_sym Hq2)).
  repeat split.
Qed.

Lemma resize_reaches_exactly_the_sharers_witness :
  let σ := <[9%positive := example_target]> example_heap in
  let q1 := set_resolutionScale 2 example_pass in
  let q2 := mkPass "DepthPass" false false (renderPass example_pass)
              9%positive Vector2_new 0.5 in
  exists p' σ',
    setSize NormalPassClass example_pass 800 600 σ = Return (p', σ')
    /\ target_size p' σ' =
         Some (Math_max 1 (Math_floor (800 * resolutionScale example_pass)),
               Math_max 1 (Math_floor (600 * resolutionScale example_pass)))
    /\ target_size q1 σ' =
         Some (Math_max 1 (Math_floor (800 * resolutionScale example_pass)),
               Math_max 1 (Math_floor (600 * resolutionScale example_pass)))
    /\ target_size q2 σ' = target_size q2 σ.
Proof.
  cbv zeta. eexists _, _. split; [vm_compute; reflexivity|].
  apply (resize_reaches_exactly_the_sharers NormalPassClass example_pass _
           (set_resolutionScale 2 example_pass)
           (mkPass "DepthPass" false false (renderPass example_pass)
              9%positive Vector2_new 0.5)
           (<[9%positive := example_target]> example_heap) _ 800 600).
  - reflexivity.
  - discriminate.
  - vm_compute. reflexivity.
Defined.

(** The sharer of a 512 x 256 target finds it at 400 x 300, the other pass
    still at 512 x 256. *)
Example sharer_sees_new_size :
  ('(p', σ') ← setSize NormalPassClass example_pass 800 600
                 (<[9%positive := example_target]> example_heap);
   Return (target_size (set_resolutionScale 2 example_pass) σ',
           target_size (mkPass "DepthPass" false false (renderPass example_pass)
                          9%positive Vector2_new 0.5) σ'))
  = Return (Some (400%float, 300%float), Some (512%float, 256%float)).
Proof. vm_compute. reflexivity. Qed.

(** X14: two passes constructed without a [renderTarget] option, of the same
    or of different classes, get two distinct target objects; constructing
    the second leaves the first one's target as it was, and resizing the
    second does too. *)
Theorem own_targets_are_separate (sup : string -> Completion PassBase)
    (acc : Ref -> Ref -> bool)
    (c1 c2 : PassClass) (sc1 cam1 sc2 cam2 : Ref) (s1 s2 : option float)
    (σ : Heap) (w h : float) :
  base_constructs sup -> acc sc1 cam1 = true -> acc sc2 cam2 = true ->
  exists p1 σ1 p2 σ2 p2' σ2',
    new sup acc c1 sc1 cam1
      (OptionsObject
         {| options_resolutionScale := s1; options_renderTarget := None |}) σ
      = Return (p1, σ1)
    /\ new sup acc c2 sc2 cam2
         (OptionsObject
            {| options_resolutionScale := s2; options_renderTarget := None |}) σ1
         = Return (p2, σ2)
    /\ setSize c2 p2 w h σ2 = Return (p2', σ2')
    /\ renderTarget p2 <> renderTarget p1
    /\ σ2 !! renderTarget p1 = σ1 !! renderTarget p1
    /\ σ2' !! renderTarget p1 = σ1 !! renderTarget p1
    /\ is_Some (σ1 !! renderTarget p1).
Proof.
  intros Hsup Hacc1 Hacc2.
  destruct (new_internal sup acc c1 sc1 cam1
              {| options_resolutionScale := s1; options_renderTarget := None |}
              σ Hsup Hacc1 eq_refl) as (p1 & t1 & Hnew1 & _).
  set (σ1 := <[renderTarget p1 := t1]> σ) in *.
  destruct (new_internal sup acc c2 sc2 cam2
              {| options_resolutionScale := s2; options_renderTarget := None |}
              σ1 Hsup Hacc2 eq_refl) as (p2 & t2 & Hnew2 & Hfresh2 & _).
  assert (Hlook1 : σ1 !! renderTarget p1 = Some t1) by apply lookup_insert_eq.
  assert (Hne : renderTarget p2 <> renderTarget p1)
    by (intros Heq; rewrite Heq in Hfresh2; congruence).
  pose proof (setSize_Return c2 p2 w h (<[renderTarget p2 := t2]> σ1) t2
                (lookup_insert_eq _ _ _)) as Hsize.
  eexists _, _, _, _, _, _. split; [exact Hnew1|]. split; [exact Hnew2|].
  split; [exact Hsize|]. split; [exact Hne|].
  split; [apply lookup_insert_ne; exact Hne|].
  split; [|exists t1; exact Hlook1].
  rewrite !lookup_insert_ne by exact Hne. reflexivity.
Qed.

Lemma own_targets_are_separate_witness :
  exists p1 σ1 p2 σ2 p2' σ2',
    new example_super strict_delegate DepthPassClass (Obj 1) (Obj 2)
      (OptionsObject
         {| options_resolutionScale := None; options_renderTarget := None |})
      example_heap = Return (p1, σ1)
    /\ new example_super strict_delegate NormalPassClass (Obj 1) (Obj 2)
         (OptionsObject
            {| options_resolutionScale := Some 1%float;
               options_renderTarget := None |}) σ1
         = Return (p2, σ2)
    /\ setSize NormalPassClass p2 800 600 σ2 = Return (p2', σ2')
    /\ renderTarget p2 <> renderTarget p1
    /\ σ2 !! renderTarget p1 = σ1 !! renderTarget p1
    /\ σ2' !! renderTarget p1 = σ1 !! renderTarget p1
    /\ is_Some (σ1 !! renderTarget p1).
Proof.
  apply (own_targets_are_separate example_super strict_delegate
           DepthPassClass NormalPassClass (Obj 1) (Obj 2) (Obj 1) (Obj 2)
           None (Some 1%float) example_heap 800 600).
  - intros n. eexists. reflexivity.
  - reflexivity.
  - reflexivity.
Defined.

(** X15: with [renderToScreen] false and the pass's own render target a live
    object of positive extent, [render] has the delegate draw into that
    target, for both buffers; the display surface and the contents of every
    other target, the pipeline's [inputBuffer] and [outputBuffer] included,
    are as before (on the delegate as the spec describes it). *)
Theorem render_offscreen_draws_own_target (c : PassClass) (st : State)
    (t : WebGLRenderTarget)
    (i o : option loc) (d : option float) (s : option bool) :
  renderToScreen (this st) = false ->
  heap st !! renderTarget (this st) = Some t ->
  valid_target t = true ->
  exists st',
    invoke c (call_render i o d s) st = Return st'
    /\ calls (gl st') =
         {| draw_pass := renderPass (this st);
            colorTarget := Some (renderTarget (this st));
            depthTarget := Some (renderTarget (this st)) |} :: calls (gl st)
    /\ offscreen (gl st') !! renderTarget (this st) = Some (renderPass (this st))
    /\ screen (gl st') = screen (gl st)
    /\ (forall l, l <> renderTarget (this st) ->
          offscreen (gl st') !! l = offscreen (gl st) !! l)
    /\ heap st' = heap st /\ this st' = this st.
Proof.
  intros Hoff Ht Hvalid. cbn [invoke].
  rewrite render_unfold, Hoff. cbn. unfold RenderPass_render, draw_into.
  rewrite Ht, Hvalid. cbn. eexists. split; [reflexivity|]. cbn.
  split; [reflexivity|]. rewrite insert_insert_eq.
  split; [apply lookup_insert_eq|]. split; [reflexivity|].
  split; [|split; reflexivity].
  intros l Hl. apply lookup_insert_ne. congruence.
Qed.

Lemma render_offscreen_draws_own_target_witness :
  let st := {| this := set_renderToScreen false example_pass;
               heap := example_heap; gl := empty_renderer |} in
  exists st',
    invoke DepthPassClass (call_render (Some 3%positive) (Some 4%positive) None None)
      st = Return st'
    /\ calls (gl st') =
         {| draw_pass := renderPass (this st);
            colorTarget := Some (renderTarget (this st));
            depthTarget := Some (renderTarget (this st)) |} :: calls (gl st)
    /\ offscreen (gl st') !! renderTarget (this st) = Some (renderPass (this st))
    /\ screen (gl st') = screen (gl st)
    /\ (forall l, l <> renderTarget (this st) ->
          offscreen (gl st') !! l = offscreen (gl st) !! l)
    /\ heap st' = heap st /\ this st' = this st.
Proof.
  cbv zeta.
  apply (render_offscreen_draws_own_target DepthPassClass
           {| this := set_renderToScreen false example_pass;
              heap := example_heap; gl := empty_renderer |}
           example_target
           (Some 3%positive) (Some 4%positive) None None).
  - reflexivity.
  - reflexivity.
  - reflexivity.
Defined.

(** An offscreen draw into a target without positive extent fails, and
    [render] lets the failure through. *)
Lemma render_offscreen_invalid_target (c : PassClass) (st : State)
    (t : WebGLRenderTarget)
    (i o : option loc) (d : option float) (s : option bool) :
  renderToScreen (this st) = false ->
  heap st !! renderTarget (this st) = Some t ->
  valid_target t = false ->
  throws (invoke c (call_render i o d s) st).
Proof.
  intros Hoff Ht Hvalid. cbn [invoke].
  rewrite render_unfold, Hoff. cbn. unfold RenderPass_render, draw_into.
  rewrite Ht, Hvalid. cbn. eexists. reflexivity.
Qed.

(** X16: the constructor never resizes a target it is given: the pass starts
    with the caller's dimensions, so unless those are 1 x 1 the target does
    not match the stored resolution (0, 0) and (finite) scale until the first
    [setSize] or [setResolutionScale]. *)
Theorem supplied_target_starts_unsized (sup : string -> Completion PassBase)
    (acc : Ref -> Ref -> bool)
    (c : PassClass) (sc cam : Ref) (o : Options) (σ : Heap) (l : loc)
    (t : WebGLRenderTarget) :
  base_constructs sup -> acc sc cam = true ->
  finite_scale o ->
  options_renderTarget o = Some l ->
  σ !! l = Some t ->
  (width t, height t) <> (1%float, 1%float) ->
  exists p,
    new sup acc c sc cam (OptionsObject o) σ = Return (p, σ)
    /\ target_size p σ = Some (width t, height t)
    /\ ~ sized p σ.
Proof.
  intros Hsup Hacc Hfin Hl Ht Hne.
  destruct (new_external sup acc c sc cam o σ l Hsup Hacc Hl)
    as (p & Hnew & Hp & _ & Hres & Hscale & _).
  assert (Hsize : target_size p σ = Some (width t, height t))
    by (unfold target_size; rewrite Hp, Ht; reflexivity).
  assert (Hs : is_finite (resolutionScale p) = true).
  { rewrite Hscale. destruct (options_resolutionScale o) as [s|] eqn:Hso.
    - apply (Hfin s). exact Hso.
    - reflexivity. }
  exists p. split; [exact Hnew|]. split; [exact Hsize|].
  unfold sized. rewrite Hsize, Hres. cbn [x y Vector2_new].
  rewrite (scaled_zero _ Hs).
  intros [= Hw Hh]. apply Hne. rewrite Hw, Hh. reflexivity.
Qed.

Lemma supplied_target_starts_unsized_witness :
  exists p,
    new example_super lenient_delegate NormalPassClass (Obj 1) (Obj 2)
      (OptionsObject {| options_resolutionScale := None;
                        options_renderTarget := Some 7%positive |})
      example_heap = Return (p, example_heap)
    /\ target_size p example_heap
         = Some (width example_target, height example_target)
    /\ ~ sized p example_heap.
Proof.
  apply (supplied_target_starts_unsized example_super lenient_delegate
           NormalPassClass (Obj 1) (Obj 2)
           {| options_resolutionScale := None;
              options_renderTarget := Some 7%positive |}
           example_heap 7%positive example_target).
  - intros n. eexists. reflexivity.
  - reflexivity.
  - intros s Hs. simpl in Hs. discriminate Hs.
  - reflexivity.
  - reflexivity.
  - intros H. vm_compute in H. discriminate H.
Defined.

(** ** The clamp and the draw *)

(** X7: an axis whose scaled length, the binary64 product [width * scale]
    (or [height * scale]), is at most 1 (a zero or negative scale, a zero or
    negative length, a small product) is clamped to exactly 1 by
    [setSize]. *)
Theorem setSize_clamps_small (c : PassClass) (p p' : PassObject)
    (σ σ' : Heap) (w h : float) :
  setSize c p w h σ = Return (p', σ') ->
  exists wd ht,
    target_size p' σ' = Some (wd, ht)
    /\ ((w * resolutionScale p <=? 1)%float = true -> wd = 1%float)
    /\ ((h * resolutionScale p <=? 1)%float = true -> ht = 1%float).
Proof.
  intros H. apply setSize_inv in H. destruct H as (t & _ & -> & ->).
  eexists _, _.
  split; [exact (target_size_insert (set_resolution _ p) σ _)|].
  cbn [width height]. unfold scaled. split; apply clamp_small.
Qed.

Lemma setSize_clamps_small_witness :
  exists p' σ',
    setSize NormalPassClass (set_resolutionScale (-1) example_pass) 800 1
      example_heap = Return (p', σ')
    /\ exists wd ht,
         target_size p' σ' = Some (wd, ht)
         /\ ((800 * resolutionScale (set_resolutionScale (-1) example_pass)
                <=? 1)%float = true -> wd = 1%float)
         /\ ((1 * resolutionScale (set_resolutionScale (-1) example_pass)
                <=? 1)%float = true -> ht = 1%float).
Proof.
  eexists _, _. split; [vm_compute; reflexivity|].
  apply (setSize_clamps_small NormalPassClass
           (set_resolutionScale (-1) example_pass) _ example_heap _ 800 1).
  vm_compute. reflexivity.
Defined.

(** X1: on a pass that holds a live target, [setSize] and
    [setResolutionScale] never throw, whatever their arguments; and when the
    dimensions they leave are numbers (not NaN), the target has positive
    extent, so a [render] that follows completes, offscreen or to the screen
    (the draw failing only on a target without positive extent, as the spec
    describes it). *)
Theorem resize_completes_and_target_can_be_drawn (c : PassClass) (call : Call)
    (st : State) :
  target_allocated (this st) (heap st) ->
  is_resize call = true ->
  exists st1 wd ht,
    invoke c call st = Return st1
    /\ target_size (this st1) (heap st1) = Some (wd, ht)
    /\ (is_nan wd = false -> is_nan ht = false ->
        forall i o d s, completes (invoke c (call_render i o d s) st1)).
Proof.
  intros [t Ht] Hr.
  assert (Hinv : exists st1 p1 t1,
             invoke c call st = Return st1
             /\ this st1 = p1 /\ renderTarget p1 = renderTarget (this st)
             /\ heap st1 = <[renderTarget (this st) := t1]> (heap st)).
  { destruct call as [w h|s|i o d s|flag]; try discriminate Hr; cbn [invoke].
    - rewrite (setSize_Return c _ w h _ t Ht). cbn.
      eexists _, _, _. repeat split.
    - rewrite (setResolutionScale_Return c _ s _ t Ht). cbn.
      eexists _, _, _. repeat split. }
  destruct Hinv as (st1 & p1 & t1 & Hcall & Hp1 & Hrt & Hheap).
  pose proof (resize_dimensions_bounds c call st st1 Hr Hcall)
    as (wd & ht & Hsize & _ & _ & Hwd & Hht).
  exists st1, wd, ht. split; [exact Hcall|]. split; [exact Hsize|].
  intros Hnw Hnh i o d s. cbn [invoke]. rewrite render_unfold.
  destruct (renderToScreen (this st1)); cbn; [eexists; reflexivity|].
  unfold RenderPass_render, draw_into.
  unfold target_size in Hsize.
  destruct (heap st1 !! renderTarget (this st1)) as [tg|] eqn:Htg;
    [|discriminate Hsize].
  cbn in Hsize. injection Hsize as <- <-.
  assert (Hv : valid_target tg = true).
  { unfold valid_target.
    destruct Hwd as [Hwd|Hwd]; [congruence|].
    destruct Hht as [Hht|Hht]; [congruence|].
    rewrite (one_le_positive _ Hwd), (one_le_positive _ Hht). reflexivity. }
  rewrite Hv. cbn. eexists. reflexivity.
Qed.

Lemma resize_completes_and_target_can_be_drawn_witness :
  exists st1 wd ht,
    invoke NormalPassClass (call_setSize 0 (-3))
      {| this := set_renderToScreen false example_pass;
         heap := {[ 7%positive := {| width := 0; height := 0;
                                     texture := texture example_target |} ]};
         gl := empty_renderer |} = Return st1
    /\ target_size (this st1) (heap st1) = Some (wd, ht)
    /\ (is_nan wd = false -> is_nan ht = false ->
        forall i o d s,
          completes (invoke NormalPassClass (call_render i o d s) st1)).
Proof.
  apply (resize_completes_and_target_can_be_drawn NormalPassClass
           (call_setSize 0 (-3))
           {| this := set_renderToScreen false example_pass;
              heap := {[ 7%positive := {| width := 0; height := 0;
                                          texture := texture example_target |} ]};
              gl := empty_renderer |}).
  - eexists. reflexivity.
  - reflexivity.
Defined.

(** A caller's 0 x 0 target cannot be drawn into before the first resize, and
    can after it. *)
Example zero_sized_target_before_and_after_resize :
  let st := {| this := set_renderToScreen false example_pass;
               heap := {[ 7%positive := {| width := 0; height := 0;
                                           texture := texture example_target |} ]};
               gl := empty_renderer |} in
  throws (invoke NormalPassClass (call_render None None None None) st)
  /\ completes (run NormalPassClass
                  [call_setSize 800 600; call_render None None None None] st).
Proof.
  cbv zeta. split; eexists; vm_compute; reflexivity.
Qed.
